(** * Event-synchronisation core of the interview client

    A shallow embedding of [client/components/App.jsx]: the tool-call
    buffering of the data-channel message listener, the two drivers of
    the interviewer (presentation) state, the deferred completion effect
    and [stopSession].

    Conventions.
    - Inbound events are the objects [JSON.parse(e.data)] yields; JavaScript
      values are the inductive [value] below.  Numbers are carried as
      integers: the code only tests them for truthiness and prints them.
    - [toolCallBuffersRef.current] is a plain object used as a map from
      property keys to strings.  Its own properties are a
      [gmap string string]; a read that finds no own property finds the
      member of [Object.prototype] of that name, if there is one
      ([store_get], [store_set]).
    - [JSON.parse] and [crypto.randomUUID] are platform functions; the
      development is parametric in them (class [Runtime]) and a reference
      instance is given for evaluation on concrete inputs.
    - React state updates made inside one callback are batched; effects
      run once the callback returns ([commit]).
    - RMS values and times are doubles in the source and rationals here;
      the RMS of a frame is an input of [tick].  A double is at least the
      double written 0.04 exactly when it is at least 4/100, and below
      the double written 0.02 exactly when it is below 2/100.  The one
      arithmetic operation [tick] performs, the subtraction of two time
      stamps, is rounded as a double subtraction is ([double_sub]).
    - The event log ([events]), the countdown ([remainingSeconds],
      [timerRef]), the camera, the audio element and the restart button
      play no role in the core and are left out. *)

From Stdlib Require Import Ascii String QArith Lqa.
From stdpp Require Import gmap strings list pretty.

Open Scope string_scope.

#[local] Set Warnings "-register-all,-clear-no-such-hyp".

(** ** JavaScript values *)

Inductive value : Type :=
  | VUndefined
  | VNull
  | VBool (b : bool)
  | VNum (n : Z)
  | VStr (s : string)
  | VArr (items : list value)
  | VObj (fields : list (string * value)).

(** An inbound event, and every object literal of the source, is a list
    of properties in insertion order. *)
Definition event := list (string * value).

Module JS.

(** [ToBoolean]. *)
Definition truthy (v : value) : bool :=
  match v with
  | VUndefined | VNull => false
  | VBool b => b
  | VNum n => negb (n =? 0)%Z
  | VStr s => negb (String.eqb s "")
  | VArr _ | VObj _ => true
  end.

(** [a || b] and [a && b] on values. *)
Definition or (a b : value) : value := if truthy a then a else b.
Definition and (a b : value) : value := if truthy a then b else a.

(** Own-property lookup in a property list; [undefined] when absent. *)
Fixpoint obj_get (fields : list (string * value)) (k : string) : value :=
  match fields with
  | [] => VUndefined
  | (k', v) :: rest => if String.eqb k' k then v else obj_get rest k
  end.

(** [o[k] = v]: overwrite in place, or append a new property. *)
Fixpoint obj_set (fields : list (string * value)) (k : string) (v : value)
  : list (string * value) :=
  match fields with
  | [] => [(k, v)]
  | (k', v') :: rest =>
      if String.eqb k' k then (k', v) :: rest else (k', v') :: obj_set rest k v
  end.

(** [v.k] for the property names the source reads ([id], [name],
    [summary], [reason]): a [TypeError] ([None]) on [null] and
    [undefined], a lookup on objects, [undefined] on the other values. *)
Definition get_prop (v : value) (k : string) : option value :=
  match v with
  | VUndefined | VNull => None
  | VObj fields => Some (obj_get fields k)
  | _ => Some VUndefined
  end.

(** [v && v.k], which never throws. *)
Definition guarded_prop (v : value) (k : string) : value :=
  if truthy v then default VUndefined (get_prop v k) else v.

Inductive type_tag := TUndefined | TObject | TBoolean | TNumber | TString.

Definition typeof (v : value) : type_tag :=
  match v with
  | VUndefined => TUndefined
  | VNull | VArr _ | VObj _ => TObject
  | VBool _ => TBoolean
  | VNum _ => TNumber
  | VStr _ => TString
  end.

Definition join (sep : string) (parts : list string) : string :=
  match parts with
  | [] => ""
  | p :: ps => fold_left (fun acc q => acc +:+ sep +:+ q) ps p
  end.

(** [ToString], as used by [prev + delta] and by property keys. *)
Fixpoint to_string (v : value) : string :=
  match v with
  | VUndefined => "undefined"
  | VNull => "null"
  | VBool true => "true"
  | VBool false => "false"
  | VNum n => pretty n
  | VStr s => s
  | VArr items =>
      join ","
        ((fix elems (l : list value) : list string :=
            match l with
            | [] => []
            | VUndefined :: l' | VNull :: l' => "" :: elems l'
            | x :: l' => to_string x :: elems l'
            end) items)
  | VObj _ => "[object Object]"
  end.

(** [String.prototype.startsWith], [endsWith] and [includes]. *)
Definition startsWith (s p : string) : bool := String.prefix p s.

Fixpoint endsWith (s suf : string) : bool :=
  String.eqb s suf ||
  match s with
  | EmptyString => false
  | String _ s' => endsWith s' suf
  end.

Fixpoint includes (s sub : string) : bool :=
  String.prefix sub s ||
  match s with
  | EmptyString => false
  | String _ s' => includes s' sub
  end.

Definition is_str (v : value) (s : string) : bool :=
  match v with
  | VStr s' => String.eqb s' s
  | _ => false
  end.

End JS.


(** ** JSON text *)

Module JSON.

(** The double quote, and JSON text written with apostrophes in its
    place: [lit "{'a':1}"] is the text [{"a":1}]. *)
Definition dq : ascii := ascii_of_N 34.

Fixpoint lit (s : string) : string :=
  match s with
  | EmptyString => EmptyString
  | String c s' => String (if Ascii.eqb c "'" then dq else c) (lit s')
  end.

Definition hex_digit (n : N) : ascii :=
  ascii_of_N (if (n <? 10)%N then 48 + n else 87 + n).

(** [QuoteJSONString]: the two-character escapes, [\u00xx] for the
    other control characters, every other byte as it is. *)
Definition escape_char (c : ascii) : string :=
  let n := N_of_ascii c in
  if (n =? 34)%N then String "\" (String dq "")
  else if (n =? 92)%N then "\\"
  else if (n =? 8)%N then "\b"
  else if (n =? 12)%N then "\f"
  else if (n =? 10)%N then "\n"
  else if (n =? 13)%N then "\r"
  else if (n =? 9)%N then "\t"
  else if (n <? 32)%N then
    "\u00" +:+ String (hex_digit (n / 16)) (String (hex_digit (n mod 16)) "")
  else String c "".

Fixpoint escape (s : string) : string :=
  match s with
  | EmptyString => ""
  | String c s' => escape_char c +:+ escape s'
  end.

Definition quote (s : string) : string :=
  String dq (escape s +:+ String dq "").

(** [JSON.stringify] without indentation: no white space is emitted,
    properties whose value is [undefined] are skipped and an
    [undefined] array element prints as [null]. *)
Fixpoint stringify (v : value) : string :=
  match v with
  | VUndefined | VNull => "null"
  | VBool true => "true"
  | VBool false => "false"
  | VNum n => pretty n
  | VStr s => quote s
  | VArr items =>
      "[" +:+ JS.join ","
        ((fix elems (l : list value) : list string :=
            match l with
            | [] => []
            | x :: l' => stringify x :: elems l'
            end) items) +:+ "]"
  | VObj fields =>
      "{" +:+ JS.join ","
        ((fix members (l : list (string * value)) : list string :=
            match l with
            | [] => []
            | (_, VUndefined) :: l' => members l'
            | (k, x) :: l' => (quote k +:+ ":" +:+ stringify x) :: members l'
            end) fields) +:+ "}"
  end.

(** *** A reference reader

    A recursive-descent reader of the JSON grammar, used to evaluate
    the model on concrete texts.  Numbers are read when they have no
    fraction and no exponent; a [\u] escape is read as one code unit
    and written in UTF-8. *)

Fixpoint skip_ws (s : string) : string :=
  match s with
  | String c s' =>
      let n := N_of_ascii c in
      if (n =? 32)%N || (n =? 9)%N || (n =? 10)%N || (n =? 13)%N
      then skip_ws s' else s
  | EmptyString => s
  end.

Definition hex_val (c : ascii) : option N :=
  let n := N_of_ascii c in
  if (48 <=? n)%N && (n <=? 57)%N then Some (n - 48)%N
  else if (97 <=? n)%N && (n <=? 102)%N then Some (n - 87)%N
  else if (65 <=? n)%N && (n <=? 70)%N then Some (n - 55)%N
  else None.

Definition utf8 (cp : N) : string :=
  (if cp <? 128 then String (ascii_of_N cp) ""
   else if cp <? 2048 then
     String (ascii_of_N (192 + cp / 64))
       (String (ascii_of_N (128 + cp mod 64)) "")
   else
     String (ascii_of_N (224 + cp / 4096))
       (String (ascii_of_N (128 + (cp / 64) mod 64))
          (String (ascii_of_N (128 + cp mod 64)) "")))%N.

(** The character a two-character escape stands for. *)
Definition unescape (e : ascii) : option ascii :=
  let n := N_of_ascii e in
  (if n =? 34 then Some dq
   else if n =? 92 then Some "\"%char
   else if n =? 47 then Some "/"%char
   else if n =? 98 then Some (ascii_of_N 8)
   else if n =? 102 then Some (ascii_of_N 12)
   else if n =? 110 then Some (ascii_of_N 10)
   else if n =? 114 then Some (ascii_of_N 13)
   else if n =? 116 then Some (ascii_of_N 9)
   else None)%N.

(** The characters of a string literal after its opening quote, and
    the text that follows its closing quote. *)
Fixpoint read_string (s : string) : option (string * string) :=
  match s with
  | EmptyString => None
  | String c s' =>
      let n := N_of_ascii c in
      if (n =? 34)%N then Some ("", s')
      else if (n <? 32)%N then None
      else if (n =? 92)%N then
        match s' with
        | String "u" (String h1 (String h2 (String h3 (String h4 s3)))) =>
            match hex_val h1, hex_val h2, hex_val h3, hex_val h4, read_string s3 with
            | Some a, Some b, Some c, Some d, Some (body, rest) =>
                Some (utf8 (((a * 16 + b) * 16 + c) * 16 + d)%N +:+ body, rest)
            | _, _, _, _, _ => None
            end
        | String e s'' =>
            match unescape e, read_string s'' with
            | Some ch, Some (body, rest) => Some (String ch body, rest)
            | _, _ => None
            end
        | EmptyString => None
        end
      else
        match read_string s' with
        | Some (body, rest) => Some (String c body, rest)
        | None => None
        end
  end.

Definition is_digit (c : ascii) : bool :=
  let n := N_of_ascii c in (48 <=? n)%N && (n <=? 57)%N.

(** The digits at the head of a text, as a number, and the rest. *)
Fixpoint read_digits (acc : Z) (s : string) : Z * string :=
  match s with
  | String c s' =>
      if is_digit c
      then read_digits (10 * acc + Z.of_N (N_of_ascii c - 48))%Z s'
      else (acc, s)
  | EmptyString => (acc, s)
  end.

(** An integer literal: no leading zero, no fraction, no exponent. *)
Definition read_int (s : string) : option (Z * string) :=
  match s with
  | String c s' =>
      if is_digit c then
        let '(n, rest) := read_digits 0 s in
        let leading_zero :=
          Ascii.eqb c "0" && match s' with String d _ => is_digit d | _ => false end in
        let continued :=
          match rest with
          | String d _ => Ascii.eqb d "." || Ascii.eqb d "e" || Ascii.eqb d "E"
          | _ => false
          end in
        if leading_zero || continued then None else Some (n, rest)
      else None
  | EmptyString => None
  end.

Fixpoint drop (n : nat) (s : string) : string :=
  match n, s with
  | S n', String _ s' => drop n' s'
  | _, _ => s
  end.

Inductive mode :=
  | MValue
  | MMembers (acc : list (string * value))
  | MElements (acc : list value).

(** In mode [MValue] a value is read; in mode [MMembers acc] the
    members that follow an opening brace or a comma, up to the closing
    brace; in mode [MElements acc] the elements of an array likewise. *)
Fixpoint read (fuel : nat) (m : mode) (s : string) : option (value * string) :=
  match fuel with
  | O => None
  | S fuel' =>
      match m with
      | MValue =>
          match skip_ws s with
          | String "{" rest =>
              match skip_ws rest with
              | String "}" rest' => Some (VObj [], rest')
              | _ => read fuel' (MMembers []) rest
              end
          | String "[" rest =>
              match skip_ws rest with
              | String "]" rest' => Some (VArr [], rest')
              | _ => read fuel' (MElements []) rest
              end
          | String "-" rest =>
              match read_int rest with
              | Some (n, rest') => Some (VNum (- n), rest')
              | None => None
              end
          | String c rest as s0 =>
              if Ascii.eqb c dq then
                match read_string rest with
                | Some (str, rest') => Some (VStr str, rest')
                | None => None
                end
              else if String.prefix "true" s0 then Some (VBool true, drop 4 s0)
              else if String.prefix "false" s0 then Some (VBool false, drop 5 s0)
              else if String.prefix "null" s0 then Some (VNull, drop 4 s0)
              else
                match read_int s0 with
                | Some (n, rest') => Some (VNum n, rest')
                | None => None
                end
          | EmptyString => None
          end
      | MMembers acc =>
          match skip_ws s with
          | String c rest =>
              if Ascii.eqb c dq then
                match read_string rest with
                | Some (key, rest1) =>
                    match skip_ws rest1 with
                    | String ":" rest2 =>
                        match read fuel' MValue rest2 with
                        | Some (v, rest3) =>
                            match skip_ws rest3 with
                            | String "," rest4 =>
                                read fuel' (MMembers (JS.obj_set acc key v)) rest4
                            | String "}" rest4 =>
                                Some (VObj (JS.obj_set acc key v), rest4)
                            | _ => None
                            end
                        | None => None
                        end
                    | _ => None
                    end
                | None => None
                end
              else None
          | EmptyString => None
          end
      | MElements acc =>
          match read fuel' MValue s with
          | Some (v, rest) =>
              match skip_ws rest with
              | String "," rest' => read fuel' (MElements (acc ++ [v])) rest'
              | String "]" rest' => Some (VArr (acc ++ [v]), rest')
              | _ => None
              end
          | None => None
          end
      end
  end.

(** [JSON.parse] on a text: one value and nothing but white space
    after it; [None] stands for the [SyntaxError]. *)
Definition parse (s : string) : option value :=
  match read (2 * String.length s + 2) MValue s with
  | Some (v, rest) =>
      match skip_ws rest with
      | EmptyString => Some v
      | _ => None
      end
  | None => None
  end.

End JSON.

(** ** Platform functions the source calls *)

Class Runtime := {
  JSON_parse : string → option value;
  randomUUID : nat → string
}.

(** ** Application state *)

Inductive PresentationState := entry | idle | talking.

Definition PresentationState_eqb (a b : PresentationState) : bool :=
  match a, b with
  | entry, entry | idle, idle | talking, talking => true
  | _, _ => false
  end.

(** The object [{ summary, reason }] held by [pendingCompletion]. *)
Record CompletionRecord := { summary : value; reason : value }.

(** The two callbacks the source hands to [setTimeout]: the fallback that
    returns the interviewer to idle, and the greeting scheduled when a
    channel opens.  The greeting closes over the channel that opened,
    [dc]. *)
Inductive timer_callback := ToIdle | Greeting (dc : nat).

(** The [useState] cells, the [useRef] cells, and the part of the browser
    the callbacks act on: pending timeouts (handle, delay in ms,
    callback), pending animation-frame requests, the next fresh handle,
    the texts sent on a data channel (oldest first) and the number of
    identifiers drawn from [crypto.randomUUID].

    Data channels are objects; they are numbered in the order
    [createDataChannel] makes them.  [dataChannel] tells whether the
    cell holds a channel, and [channel_id] is the number of the channel
    made last, which is the one the cell holds when it holds one. *)
Record App := {
  isSessionActive : bool;
  dataChannel : bool;
  channel_id : nat;
  interviewerState : PresentationState;
  isInterviewCompleted : bool;
  completionSummary : value;
  completionReason : value;
  pendingCompletion : option CompletionRecord;
  peerConnection : bool;
  talkingTimeoutRef : option positive;
  audioContextRef : bool;
  analyserRef : bool;
  vadRafRef : option positive;
  lastAboveThresholdMsRef : Q;
  isSpeakingRef : bool;
  toolCallBuffersRef : gmap string string;
  timeouts : gmap positive (Z * timer_callback);
  frames : gset positive;
  next_handle : positive;
  sent : list string;
  uuids : nat
}.

(** Field updates. *)
Definition set_isSessionActive (x : bool) (st : App) : App :=
  {| isSessionActive := x; dataChannel := dataChannel st;
     channel_id := channel_id st; interviewerState := interviewerState st;
     isInterviewCompleted := isInterviewCompleted st;
     completionSummary := completionSummary st;
     completionReason := completionReason st;
     pendingCompletion := pendingCompletion st;
     peerConnection := peerConnection st;
     talkingTimeoutRef := talkingTimeoutRef st;
     audioContextRef := audioContextRef st; analyserRef := analyserRef st;
     vadRafRef := vadRafRef st;
     lastAboveThresholdMsRef := lastAboveThresholdMsRef st;
     isSpeakingRef := isSpeakingRef st;
     toolCallBuffersRef := toolCallBuffersRef st; timeouts := timeouts st;
     frames := frames st; next_handle := next_handle st; sent := sent st;
     uuids := uuids st |}.

Definition set_dataChannel (x : bool) (st : App) : App :=
  {| isSessionActive := isSessionActive st; dataChannel := x;
     channel_id := channel_id st; interviewerState := interviewerState st;
     isInterviewCompleted := isInterviewCompleted st;
     completionSummary := completionSummary st;
     completionReason := completionReason st;
     pendingCompletion := pendingCompletion st;
     peerConnection := peerConnection st;
     talkingTimeoutRef := talkingTimeoutRef st;
     audioContextRef := audioContextRef st; analyserRef := analyserRef st;
     vadRafRef := vadRafRef st;
     lastAboveThresholdMsRef := lastAboveThresholdMsRef st;
     isSpeakingRef := isSpeakingRef st;
     toolCallBuffersRef := toolCallBuffersRef st; timeouts := timeouts st;
     frames := frames st; next_handle := next_handle st; sent := sent st;
     uuids := uuids st |}.

Definition set_channel_id (x : nat) (st : App) : App :=
  {| isSessionActive := isSessionActive st; dataChannel := dataChannel st;
     channel_id := x; interviewerState := interviewerState st;
     isInterviewCompleted := isInterviewCompleted st;
     completionSummary := completionSummary st;
     completionReason := completionReason st;
     pendingCompletion := pendingCompletion st;
     peerConnection := peerConnection st;
     talkingTimeoutRef := talkingTimeoutRef st;
     audioContextRef := audioContextRef st; analyserRef := analyserRef st;
     vadRafRef := vadRafRef st;
     lastAboveThresholdMsRef := lastAboveThresholdMsRef st;
     isSpeakingRef := isSpeakingRef st;
     toolCallBuffersRef := toolCallBuffersRef st; timeouts := timeouts st;
     frames := frames st; next_handle := next_handle st; sent := sent st;
     uuids := uuids st |}.

Definition set_interviewerState (x : PresentationState) (st : App) : App :=
  {| isSessionActive := isSessionActive st; dataChannel := dataChannel st;
     channel_id := channel_id st; interviewerState := x;
     isInterviewCompleted := isInterviewCompleted st;
     completionSummary := completionSummary st;
     completionReason := completionReason st;
     pendingCompletion := pendingCompletion st;
     peerConnection := peerConnection st;
     talkingTimeoutRef := talkingTimeoutRef st;
     audioContextRef := audioContextRef st; analyserRef := analyserRef st;
     vadRafRef := vadRafRef st;
     lastAboveThresholdMsRef := lastAboveThresholdMsRef st;
     isSpeakingRef := isSpeakingRef st;
     toolCallBuffersRef := toolCallBuffersRef st; timeouts := timeouts st;
     frames := frames st; next_handle := next_handle st; sent := sent st;
     uuids := uuids st |}.

Definition set_isInterviewCompleted (x : bool) (st : App) : App :=
  {| isSessionActive := isSessionActive st; dataChannel := dataChannel st;
     channel_id := channel_id st; interviewerState := interviewerState st;
     isInterviewCompleted := x; completionSummary := completionSummary st;
     completionReason := completionReason st;
     pendingCompletion := pendingCompletion st;
     peerConnection := peerConnection st;
     talkingTimeoutRef := talkingTimeoutRef st;
     audioContextRef := audioContextRef st; analyserRef := analyserRef st;
     vadRafRef := vadRafRef st;
     lastAboveThresholdMsRef := lastAboveThresholdMsRef st;
     isSpeakingRef := isSpeakingRef st;
     toolCallBuffersRef := toolCallBuffersRef st; timeouts := timeouts st;
     frames := frames st; next_handle := next_handle st; sent := sent st;
     uuids := uuids st |}.

Definition set_completionSummary (x : value) (st : App) : App :=
  {| isSessionActive := isSessionActive st; dataChannel := dataChannel st;
     channel_id := channel_id st; interviewerState := interviewerState st;
     isInterviewCompleted := isInterviewCompleted st; completionSummary := x;
     completionReason := completionReason st;
     pendingCompletion := pendingCompletion st;
     peerConnection := peerConnection st;
     talkingTimeoutRef := talkingTimeoutRef st;
     audioContextRef := audioContextRef st; analyserRef := analyserRef st;
     vadRafRef := vadRafRef st;
     lastAboveThresholdMsRef := lastAboveThresholdMsRef st;
     isSpeakingRef := isSpeakingRef st;
     toolCallBuffersRef := toolCallBuffersRef st; timeouts := timeouts st;
     frames := frames st; next_handle := next_handle st; sent := sent st;
     uuids := uuids st |}.

Definition set_completionReason (x : value) (st : App) : App :=
  {| isSessionActive := isSessionActive st; dataChannel := dataChannel st;
     channel_id := channel_id st; interviewerState := interviewerState st;
     isInterviewCompleted := isInterviewCompleted st;
     completionSummary := completionSummary st; completionReason := x;
     pendingCompletion := pendingCompletion st;
     peerConnection := peerConnection st;
     talkingTimeoutRef := talkingTimeoutRef st;
     audioContextRef := audioContextRef st; analyserRef := analyserRef st;
     vadRafRef := vadRafRef st;
     lastAboveThresholdMsRef := lastAboveThresholdMsRef st;
     isSpeakingRef := isSpeakingRef st;
     toolCallBuffersRef := toolCallBuffersRef st; timeouts := timeouts st;
     frames := frames st; next_handle := next_handle st; sent := sent st;
     uuids := uuids st |}.

Definition set_pendingCompletion (x : option CompletionRecord) (st : App) : App :=
  {| isSessionActive := isSessionActive st; dataChannel := dataChannel st;
     channel_id := channel_id st; interviewerState := interviewerState st;
     isInterviewCompleted := isInterviewCompleted st;
     completionSummary := completionSummary st;
     completionReason := completionReason st; pendingCompletion := x;
     peerConnection := peerConnection st;
     talkingTimeoutRef := talkingTimeoutRef st;
     audioContextRef := audioContextRef st; analyserRef := analyserRef st;
     vadRafRef := vadRafRef st;
     lastAboveThresholdMsRef := lastAboveThresholdMsRef st;
     isSpeakingRef := isSpeakingRef st;
     toolCallBuffersRef := toolCallBuffersRef st; timeouts := timeouts st;
     frames := frames st; next_handle := next_handle st; sent := sent st;
     uuids := uuids st |}.

Definition set_peerConnection (x : bool) (st : App) : App :=
  {| isSessionActive := isSessionActive st; dataChannel := dataChannel st;
     channel_id := channel_id st; interviewerState := interviewerState st;
     isInterviewCompleted := isInterviewCompleted st;
     completionSummary := completionSummary st;
     completionReason := completionReason st;
     pendingCompletion := pendingCompletion st; peerConnection := x;
     talkingTimeoutRef := talkingTimeoutRef st;
     audioContextRef := audioContextRef st; analyserRef := analyserRef st;
     vadRafRef := vadRafRef st;
     lastAboveThresholdMsRef := lastAboveThresholdMsRef st;
     isSpeakingRef := isSpeakingRef st;
     toolCallBuffersRef := toolCallBuffersRef st; timeouts := timeouts st;
     frames := frames st; next_handle := next_handle st; sent := sent st;
     uuids := uuids st |}.

Definition set_talkingTimeoutRef (x : option positive) (st : App) : App :=
  {| isSessionActive := isSessionActive st; dataChannel := dataChannel st;
     channel_id := channel_id st; interviewerState := interviewerState st;
     isInterviewCompleted := isInterviewCompleted st;
     completionSummary := completionSummary st;
     completionReason := completionReason st;
     pendingCompletion := pendingCompletion st;
     peerConnection := peerConnection st; talkingTimeoutRef := x;
     audioContextRef := audioContextRef st; analyserRef := analyserRef st;
     vadRafRef := vadRafRef st;
     lastAboveThresholdMsRef := lastAboveThresholdMsRef st;
     isSpeakingRef := isSpeakingRef st;
     toolCallBuffersRef := toolCallBuffersRef st; timeouts := timeouts st;
     frames := frames st; next_handle := next_handle st; sent := sent st;
     uuids := uuids st |}.

Definition set_audioContextRef (x : bool) (st : App) : App :=
  {| isSessionActive := isSessionActive st; dataChannel := dataChannel st;
     channel_id := channel_id st; interviewerState := interviewerState st;
     isInterviewCompleted := isInterviewCompleted st;
     completionSummary := completionSummary st;
     completionReason := completionReason st;
     pendingCompletion := pendingCompletion st;
     peerConnection := peerConnection st;
     talkingTimeoutRef := talkingTimeoutRef st; audioContextRef := x;
     analyserRef := analyserRef st; vadRafRef := vadRafRef st;
     lastAboveThresholdMsRef := lastAboveThresholdMsRef st;
     isSpeakingRef := isSpeakingRef st;
     toolCallBuffersRef := toolCallBuffersRef st; timeouts := timeouts st;
     frames := frames st; next_handle := next_handle st; sent := sent st;
     uuids := uuids st |}.

Definition set_analyserRef (x : bool) (st : App) : App :=
  {| isSessionActive := isSessionActive st; dataChannel := dataChannel st;
     channel_id := channel_id st; interviewerState := interviewerState st;
     isInterviewCompleted := isInterviewCompleted st;
     completionSummary := completionSummary st;
     completionReason := completionReason st;
     pendingCompletion := pendingCompletion st;
     peerConnection := peerConnection st;
     talkingTimeoutRef := talkingTimeoutRef st;
     audioContextRef := audioContextRef st; analyserRef := x;
     vadRafRef := vadRafRef st;
     lastAboveThresholdMsRef := lastAboveThresholdMsRef st;
     isSpeakingRef := isSpeakingRef st;
     toolCallBuffersRef := toolCallBuffersRef st; timeouts := timeouts st;
     frames := frames st; next_handle := next_handle st; sent := sent st;
     uuids := uuids st |}.

Definition set_vadRafRef (x : option positive) (st : App) : App :=
  {| isSessionActive := isSessionActive st; dataChannel := dataChannel st;
     channel_id := channel_id st; interviewerState := interviewerState st;
     isInterviewCompleted := isInterviewCompleted st;
     completionSummary := completionSummary st;
     completionReason := completionReason st;
     pendingCompletion := pendingCompletion st;
     peerConnection := peerConnection st;
     talkingTimeoutRef := talkingTimeoutRef st;
     audioContextRef := audioContextRef st; analyserRef := analyserRef st;
     vadRafRef := x; lastAboveThresholdMsRef := lastAboveThresholdMsRef st;
     isSpeakingRef := isSpeakingRef st;
     toolCallBuffersRef := toolCallBuffersRef st; timeouts := timeouts st;
     frames := frames st; next_handle := next_handle st; sent := sent st;
     uuids := uuids st |}.

Definition set_lastAboveThresholdMsRef (x : Q) (st : App) : App :=
  {| isSessionActive := isSessionActive st; dataChannel := dataChannel st;
     channel_id := channel_id st; interviewerState := interviewerState st;
     isInterviewCompleted := isInterviewCompleted st;
     completionSummary := completionSummary st;
     completionReason := completionReason st;
     pendingCompletion := pendingCompletion st;
     peerConnection := peerConnection st;
     talkingTimeoutRef := talkingTimeoutRef st;
     audioContextRef := audioContextRef st; analyserRef := analyserRef st;
     vadRafRef := vadRafRef st; lastAboveThresholdMsRef := x;
     isSpeakingRef := isSpeakingRef st;
     toolCallBuffersRef := toolCallBuffersRef st; timeouts := timeouts st;
     frames := frames st; next_handle := next_handle st; sent := sent st;
     uuids := uuids st |}.

Definition set_isSpeakingRef (x : bool) (st : App) : App :=
  {| isSessionActive := isSessionActive st; dataChannel := dataChannel st;
     channel_id := channel_id st; interviewerState := interviewerState st;
     isInterviewCompleted := isInterviewCompleted st;
     completionSummary := completionSummary st;
     completionReason := completionReason st;
     pendingCompletion := pendingCompletion st;
     peerConnection := peerConnection st;
     talkingTimeoutRef := talkingTimeoutRef st;
     audioContextRef := audioContextRef st; analyserRef := analyserRef st;
     vadRafRef := vadRafRef st;
     lastAboveThresholdMsRef := lastAboveThresholdMsRef st;
     isSpeakingRef := x; toolCallBuffersRef := toolCallBuffersRef st;
     timeouts := timeouts st; frames := frames st;
     next_handle := next_handle st; sent := sent st; uuids := uuids st |}.

Definition set_toolCallBuffersRef (x : gmap string string) (st : App) : App :=
  {| isSessionActive := isSessionActive st; dataChannel := dataChannel st;
     channel_id := channel_id st; interviewerState := interviewerState st;
     isInterviewCompleted := isInterviewCompleted st;
     completionSummary := completionSummary st;
     completionReason := completionReason st;
     pendingCompletion := pendingCompletion st;
     peerConnection := peerConnection st;
     talkingTimeoutRef := talkingTimeoutRef st;
     audioContextRef := audioContextRef st; analyserRef := analyserRef st;
     vadRafRef := vadRafRef st;
     lastAboveThresholdMsRef := lastAboveThresholdMsRef st;
     isSpeakingRef := isSpeakingRef st; toolCallBuffersRef := x;
     timeouts := timeouts st; frames := frames st;
     next_handle := next_handle st; sent := sent st; uuids := uuids st |}.

Definition set_timeouts (x : gmap positive (Z * timer_callback)) (st : App) : App :=
  {| isSessionActive := isSessionActive st; dataChannel := dataChannel st;
     channel_id := channel_id st; interviewerState := interviewerState st;
     isInterviewCompleted := isInterviewCompleted st;
     completionSummary := completionSummary st;
     completionReason := completionReason st;
     pendingCompletion := pendingCompletion st;
     peerConnection := peerConnection st;
     talkingTimeoutRef := talkingTimeoutRef st;
     audioContextRef := audioContextRef st; analyserRef := analyserRef st;
     vadRafRef := vadRafRef st;
     lastAboveThresholdMsRef := lastAboveThresholdMsRef st;
     isSpeakingRef := isSpeakingRef st;
     toolCallBuffersRef := toolCallBuffersRef st; timeouts := x;
     frames := frames st; next_handle := next_handle st; sent := sent st;
     uuids := uuids st |}.

Definition set_frames (x : gset positive) (st : App) : App :=
  {| isSessionActive := isSessionActive st; dataChannel := dataChannel st;
     channel_id := channel_id st; interviewerState := interviewerState st;
     isInterviewCompleted := isInterviewCompleted st;
     completionSummary := completionSummary st;
     completionReason := completionReason st;
     pendingCompletion := pendingCompletion st;
     peerConnection := peerConnection st;
     talkingTimeoutRef := talkingTimeoutRef st;
     audioContextRef := audioContextRef st; analyserRef := analyserRef st;
     vadRafRef := vadRafRef st;
     lastAboveThresholdMsRef := lastAboveThresholdMsRef st;
     isSpeakingRef := isSpeakingRef st;
     toolCallBuffersRef := toolCallBuffersRef st; timeouts := timeouts st;
     frames := x; next_handle := next_handle st; sent := sent st;
     uuids := uuids st |}.

Definition set_next_handle (x : positive) (st : App) : App :=
  {| isSessionActive := isSessionActive st; dataChannel := dataChannel st;
     channel_id := channel_id st; interviewerState := interviewerState st;
     isInterviewCompleted := isInterviewCompleted st;
     completionSummary := completionSummary st;
     completionReason := completionReason st;
     pendingCompletion := pendingCompletion st;
     peerConnection := peerConnection st;
     talkingTimeoutRef := talkingTimeoutRef st;
     audioContextRef := audioContextRef st; analyserRef := analyserRef st;
     vadRafRef := vadRafRef st;
     lastAboveThresholdMsRef := lastAboveThresholdMsRef st;
     isSpeakingRef := isSpeakingRef st;
     toolCallBuffersRef := toolCallBuffersRef st; timeouts := timeouts st;
     frames := frames st; next_handle := x; sent := sent st;
     uuids := uuids st |}.

Definition set_sent (x : list string) (st : App) : App :=
  {| isSessionActive := isSessionActive st; dataChannel := dataChannel st;
     channel_id := channel_id st; interviewerState := interviewerState st;
     isInterviewCompleted := isInterviewCompleted st;
     completionSummary := completionSummary st;
     completionReason := completionReason st;
     pendingCompletion := pendingCompletion st;
     peerConnection := peerConnection st;
     talkingTimeoutRef := talkingTimeoutRef st;
     audioContextRef := audioContextRef st; analyserRef := analyserRef st;
     vadRafRef := vadRafRef st;
     lastAboveThresholdMsRef := lastAboveThresholdMsRef st;
     isSpeakingRef := isSpeakingRef st;
     toolCallBuffersRef := toolCallBuffersRef st; timeouts := timeouts st;
     frames := frames st; next_handle := next_handle st; sent := x;
     uuids := uuids st |}.

Definition set_uuids (x : nat) (st : App) : App :=
  {| isSessionActive := isSessionActive st; dataChannel := dataChannel st;
     channel_id := channel_id st; interviewerState := interviewerState st;
     isInterviewCompleted := isInterviewCompleted st;
     completionSummary := completionSummary st;
     completionReason := completionReason st;
     pendingCompletion := pendingCompletion st;
     peerConnection := peerConnection st;
     talkingTimeoutRef := talkingTimeoutRef st;
     audioContextRef := audioContextRef st; analyserRef := analyserRef st;
     vadRafRef := vadRafRef st;
     lastAboveThresholdMsRef := lastAboveThresholdMsRef st;
     isSpeakingRef := isSpeakingRef st;
     toolCallBuffersRef := toolCallBuffersRef st; timeouts := timeouts st;
     frames := frames st; next_handle := next_handle st; sent := sent st;
     uuids := x |}.

(** State on mount: the initial values of the [useState] and [useRef]
    cells; nothing pending in the browser. *)
Definition initial : App :=
  {| isSessionActive := false; dataChannel := false; channel_id := 0;
     interviewerState := idle;
     isInterviewCompleted := false; completionSummary := VStr "";
     completionReason := VStr ""; pendingCompletion := None;
     peerConnection := false; talkingTimeoutRef := None;
     audioContextRef := false; analyserRef := false; vadRafRef := None;
     lastAboveThresholdMsRef := 0; isSpeakingRef := false;
     toolCallBuffersRef := ∅; timeouts := ∅; frames := ∅; next_handle := 1;
     sent := []; uuids := 0 |}.

(** ** Double arithmetic *)

(** [num / den] rounded to an integer, ties to even; [0 <= num], [0 < den]. *)
Definition round_half_even (num den : Z) : Z :=
  let q := (num / den)%Z in
  let r := (num mod den)%Z in
  if (2 * r <? den)%Z then q
  else if (den <? 2 * r)%Z then (q + 1)%Z
  else if Z.even q then q else (q + 1)%Z.

(** The [e] with [2 ^ e <= n / d < 2 ^ (e + 1)], for positive [n], [d]. *)
Definition binade (n d : Z) : Z :=
  let e := (Z.log2 n - Z.log2 d)%Z in
  let below := if (0 <=? e)%Z then (n <? d * 2 ^ e)%Z else (n * 2 ^ (- e) <? d)%Z in
  if below then (e - 1)%Z else e.

(** [n / d] rounded to 53 significant bits, to fewer below [2 ^ -1022]. *)
Definition round_magnitude (n d : Z) : Q :=
  let q := (Z.max (binade n d) (-1022) - 52)%Z in
  if (0 <=? q)%Z
  then inject_Z (round_half_even n (d * 2 ^ q) * 2 ^ q)
  else Qmake (round_half_even (n * 2 ^ (- q)) d) (Z.to_pos (2 ^ (- q))).

(** The double nearest to [x], ties to even (IEEE 754 binary64, default
    rounding).  Magnitudes that round to infinity do not occur: time
    stamps are far below [2 ^ 1024]. *)
Definition round_double (x : Q) : Q :=
  match Qnum x with
  | Z0 => 0
  | Zpos n => round_magnitude (Zpos n) (Zpos (Qden x))
  | Zneg n => - round_magnitude (Zpos n) (Zpos (Qden x))
  end.

(** [a - b] on doubles. *)
Definition double_sub (a b : Q) : Q := round_double (a - b).

Definition TALKING_HOLD_MS : Z := 4000.
Definition VAD_START_THRESHOLD : Q := 4 # 100.
Definition VAD_STOP_THRESHOLD : Q := 2 # 100.
Definition VAD_REQUIRED_SILENCE_MS : Q := 300.

(** ** Browser primitives *)

(** [setTimeout(cb, delay)]: a fresh handle, registered as pending. *)
Definition setTimeout (cb : timer_callback) (delay : Z) (st : App) : positive * App :=
  let h := next_handle st in
  (h, set_next_handle (Pos.succ h) (set_timeouts (<[h := (delay, cb)]> (timeouts st)) st)).

Definition clearTimeout (h : positive) (st : App) : App :=
  set_timeouts (delete h (timeouts st)) st.

Definition requestAnimationFrame (st : App) : positive * App :=
  let h := next_handle st in
  (h, set_next_handle (Pos.succ h) (set_frames ({[h]} ∪ frames st) st)).

Definition cancelAnimationFrame (h : positive) (st : App) : App :=
  set_frames (frames st ∖ {[h]}) st.

(** [dataChannel.send(text)]. *)
Definition send (text : string) (st : App) : App :=
  set_sent (sent st ++ [text]) st.

Section Core.

Context `{RT : Runtime}.

(** ** [sendClientEvent] *)

(** [dc] is the [dataChannel] the enclosing render captured.  The
    message gets an [event_id] unless it has one, and is sent as JSON
    text; the time stamp and the event log come after the send. *)
Definition sendClientEvent (dc : bool) (message : list (string * value)) (st : App) : App :=
  if dc then
    let '(event_id, st1) :=
      if JS.truthy (JS.obj_get message "event_id")
      then (JS.obj_get message "event_id", st)
      else (VStr (randomUUID (uuids st)), set_uuids (S (uuids st)) st) in
    send (JSON.stringify (VObj (JS.obj_set message "event_id" event_id))) st1
  else st.

(** ** Tool-call buffering (message listener, first [try] block) *)

(** [event.type || ""]. *)
Definition event_type (e : event) : value := JS.or (JS.obj_get e "type") (VStr "").

(** [type.includes(s)]: on a string, on an array, and the [TypeError]
    of calling a missing method on anything else. *)
Definition type_includes (type : value) (s : string) : option bool :=
  match type with
  | VStr t => Some (JS.includes t s)
  | VArr items => Some (existsb (fun x => JS.is_str x s) items)
  | _ => None
  end.

Definition looksLikeToolEvent (type : value) : option bool :=
  match type_includes type "function_call" with
  | Some true => Some true
  | Some false => type_includes type "tool_call"
  | None => None
  end.

Definition callId_of (e : event) : value :=
  JS.or (JS.or (JS.obj_get e "call_id") (JS.obj_get e "id"))
        (JS.guarded_prop (JS.obj_get e "call") "id").

Definition name_of (e : event) : value :=
  JS.or (JS.or (JS.obj_get e "name") (JS.guarded_prop (JS.obj_get e "function") "name"))
        (JS.guarded_prop (JS.obj_get e "tool") "name").

Definition delta_of (e : event) : value :=
  JS.or (JS.obj_get e "delta")
        (match JS.typeof (JS.obj_get e "arguments") with
         | JS.TString => JS.obj_get e "arguments"
         | _ => VUndefined
         end).

(** The property key [callId] selects in [toolCallBuffersRef.current]. *)
Definition buffer_key (callId : value) : string := JS.to_string callId.

(** The store is a plain object, so a key with no own property reads
    the member of [Object.prototype] of that name.  The listener only
    tests what it reads for truthiness and converts it to a string, so
    an inherited member is carried as its string conversion: the source
    text of a built-in function is left to the host by the language, and
    is given here the way V8 and JavaScriptCore print it; [__proto__]
    reads the prototype object itself. *)
Definition native_function (name : string) : string :=
  "function " +:+ name +:+ "() { [native code] }".

Definition Object_prototype_methods : list string :=
  ["hasOwnProperty"; "isPrototypeOf"; "propertyIsEnumerable"; "toLocaleString";
   "toString"; "valueOf"; "__defineGetter__"; "__defineSetter__";
   "__lookupGetter__"; "__lookupSetter__"].

Definition inherited (key : string) : option string :=
  if String.eqb key "__proto__" then Some "[object Object]"
  else if String.eqb key "constructor" then Some (native_function "Object")
  else if existsb (String.eqb key) Object_prototype_methods then Some (native_function key)
  else None.

(** [toolCallBuffersRef.current[key]] *)
Definition store_get (key : string) (st : App) : value :=
  match toolCallBuffersRef st !! key with
  | Some text => VStr text
  | None => from_option VStr VUndefined (inherited key)
  end.

(** [toolCallBuffersRef.current[key] = text].  Without an own property
    of that name, [__proto__] is the inherited setter, which ignores a
    string; any other key gets an own property. *)
Definition store_set (key text : string) (st : App) : App :=
  if String.eqb key "__proto__" && bool_decide (toolCallBuffersRef st !! key = None)
  then st
  else set_toolCallBuffersRef (<[key := text]> (toolCallBuffersRef st)) st.

(** [if (delta) { buffers[callId] = (buffers[callId] || "") + delta }] *)
Definition accumulate (e : event) (st : App) : App :=
  let delta := delta_of e in
  if JS.truthy delta then
    let key := buffer_key (callId_of e) in
    let prev := JS.or (store_get key st) (VStr "") in
    store_set key (JS.to_string prev +:+ JS.to_string delta) st
  else st.

(** [isFinal]; [endsWith] exists on strings only. *)
Definition isFinal (type : value) : option bool :=
  match type with
  | VStr t =>
      Some (JS.endsWith t ".completed" || JS.endsWith t ".done" ||
            JS.endsWith t ".finished" ||
            String.eqb t "response.function_call.completed" ||
            String.eqb t "response.tool_call.completed")
  | _ => None
  end.

(** [rawArgs]: the buffered text, or the serialised [arguments] when
    there is no text and [arguments] has type [object]. *)
Definition rawArgs_of (e : event) (st : App) : value :=
  let buffered := store_get (buffer_key (callId_of e)) st in
  if negb (JS.truthy buffered) &&
     match JS.typeof (JS.obj_get e "arguments") with JS.TObject => true | _ => false end
  then VStr (JSON.stringify (JS.obj_get e "arguments"))
  else buffered.

(** [parsed]: the empty object unless [rawArgs] is a non-empty text
    that [JSON.parse] accepts. *)
Definition parse_args (rawArgs : value) : value :=
  if JS.truthy rawArgs then
    match JSON_parse (JS.to_string rawArgs) with
    | Some v => v
    | None => VObj []
    end
  else VObj [].

(** The invocation a terminal event yields from the store. *)
Record ToolInvocation := { name : value; call_id : value; arguments : value }.

Definition finalize (e : event) (st : App) : ToolInvocation :=
  {| name := name_of e; call_id := callId_of e;
     arguments := parse_args (rawArgs_of e st) |}.

(** The acknowledgment object built for [sendClientEvent]. *)
Definition acknowledgment (callId : value) : list (string * value) :=
  [("type", VStr "tool.output");
   ("call_id", callId);
   ("output", VStr (JSON.stringify (VObj [("acknowledged", VBool true)])))].

(** [if (name === "complete_interview") { ... }]; [None] is the
    [TypeError] of reading a property of [null].  The listener is
    attached to a data channel that is not null, and its
    [sendClientEvent] captured that channel. *)
Definition route (inv : ToolInvocation) (st : App) : option App :=
  if JS.is_str (name inv) "complete_interview" then
    match JS.get_prop (arguments inv) "summary", JS.get_prop (arguments inv) "reason" with
    | Some s, Some r =>
        let summary := JS.or s (VStr "") in
        let reason := JS.or r (VStr "") in
        Some (sendClientEvent true (acknowledgment (call_id inv))
                (set_pendingCompletion (Some {| summary := summary; reason := reason |})
                   (set_completionReason reason
                      (set_completionSummary summary st))))
    | _, _ => None
    end
  else Some st.

(** [delete toolCallBuffersRef.current[callId]] *)
Definition cleanup (callId : value) (st : App) : App :=
  set_toolCallBuffersRef (delete (buffer_key callId) (toolCallBuffersRef st)) st.

Inductive outcome := Normal | Caught.

(** The block as a whole: the state it leaves, and whether it ran to
    its end or an exception reached the enclosing [catch]. *)
Definition tool_block (e : event) (st : App) : App * outcome :=
  let type := event_type e in
  match looksLikeToolEvent type with
  | None => (st, Caught)
  | Some false => (st, Normal)
  | Some true =>
      if JS.truthy (callId_of e) && JS.truthy (name_of e) then
        let st1 := accumulate e st in
        match isFinal type with
        | None => (st1, Caught)
        | Some false => (st1, Normal)
        | Some true =>
            match route (finalize e st1) st1 with
            | None => (st1, Caught)
            | Some st2 => (cleanup (callId_of e) st2, Normal)
            end
        end
      else (st, Normal)
  end.

(** ** Driver A (message listener, after the [try] block) *)

Definition isTalkDelta (t : string) : bool :=
  String.eqb t "response.created" ||
  JS.startsWith t "response.output_" ||
  String.eqb t "response.delta".

Definition isTalkEnd (t : string) : bool :=
  String.eqb t "response.completed" ||
  String.eqb t "response.done" ||
  String.eqb t "response.stopped".

(** [if (talkingTimeoutRef.current) clearTimeout(talkingTimeoutRef.current)] *)
Definition clear_talking_timeout (st : App) : App :=
  match talkingTimeoutRef st with
  | Some h => clearTimeout h st
  | None => st
  end.

(** A [type] that is not a string makes [type.startsWith] throw out of
    the listener before any update. *)
Definition talk_update (e : event) (st : App) : App :=
  match event_type e with
  | VStr t =>
      let st1 :=
        if isTalkDelta t then
          let st2 :=
            set_interviewerState
              (if negb (PresentationState_eqb (interviewerState st) talking)
               then talking else interviewerState st) st in
          let '(h, st3) := setTimeout ToIdle TALKING_HOLD_MS (clear_talking_timeout st2) in
          set_talkingTimeoutRef (Some h) st3
        else st in
      if isTalkEnd t
      then set_interviewerState idle (clear_talking_timeout st1)
      else st1
  | _ => st
  end.

(** The message listener: the tool block, whose exceptions are
    swallowed, then the update of the interviewer state. *)
Definition handle_message (e : event) (st : App) : App :=
  talk_update e (fst (tool_block e st)).

(** ** Channel open, greeting, text from the user *)

Definition greeting_instructions : string :=
  "Introduce yourself as an AI interviewer for Hirenest. Speak only in English. Explain this is a short, interactive realâ€‘time interview. Ask the first question now: 'What interests you about this company?'. Keep it concise and invite clarifying questions.".

Definition greeting_event : value :=
  VObj [("type", VStr "response.create");
        ("response", VObj [("instructions", VStr greeting_instructions)])].

(** The [open] listener of the channel in the cell. *)
Definition handle_open (st : App) : App :=
  snd (setTimeout (Greeting (channel_id st)) 400
         (set_interviewerState entry (set_isSessionActive true st))).

(** The channel [dc] is open: only [stopSession] closes a channel, the
    one in the cell, and it empties the cell. *)
Definition channel_open (dc : nat) (st : App) : bool :=
  dataChannel st && (channel_id st =? dc)%nat.

(** The greeting sends on the channel [dc] it closed over.  The send is
    inside a [try]: nothing is sent once that channel is closed. *)
Definition greet (dc : nat) (st : App) : App :=
  let st1 := set_interviewerState talking st in
  if channel_open dc st then send (JSON.stringify greeting_event) st1 else st1.

Definition text_message (message : string) : list (string * value) :=
  [("type", VStr "conversation.item.create");
   ("item", VObj [("type", VStr "message");
                  ("role", VStr "user");
                  ("content", VArr [VObj [("type", VStr "input_text");
                                          ("text", VStr message)]])])].

Definition sendTextMessage (message : string) (st : App) : App :=
  sendClientEvent (dataChannel st) [("type", VStr "response.create")]
    (sendClientEvent (dataChannel st) (text_message message) st).

(** The wrapper handed to the session controls. *)
Definition handle_text (message : string) (st : App) : App :=
  sendTextMessage message (set_interviewerState idle st).

(** ** Timeouts *)

Definition run_callback (cb : timer_callback) (st : App) : App :=
  match cb with
  | ToIdle => set_interviewerState idle st
  | Greeting dc => greet dc st
  end.

Definition handle_timeout (h : positive) (st : App) : App :=
  match timeouts st !! h with
  | Some (_, cb) => run_callback cb (set_timeouts (delete h (timeouts st)) st)
  | None => st
  end.

(** ** Driver B (voice activity detection) *)

(** The body of [tick] once the RMS of the frame has been computed;
    [now] is [performance.now()]. *)
Definition tick (rms now : Q) (st : App) : App :=
  if negb (analyserRef st) then st
  else
    let st1 :=
      if Qle_bool VAD_START_THRESHOLD rms then
        let st2 := set_lastAboveThresholdMsRef now st in
        if negb (isSpeakingRef st2)
        then set_interviewerState talking (set_isSpeakingRef true st2)
        else st2
      else if isSpeakingRef st &&
              negb (Qle_bool VAD_STOP_THRESHOLD rms) &&
              negb (Qle_bool (double_sub now (lastAboveThresholdMsRef st))
                               VAD_REQUIRED_SILENCE_MS)
      then set_interviewerState idle (set_isSpeakingRef false st)
      else st in
    let '(h, st3) := requestAnimationFrame st1 in
    set_vadRafRef (Some h) st3.

(** The browser runs a requested frame. *)
Definition handle_frame (h : positive) (rms now : Q) (st : App) : App :=
  if decide (h ∈ frames st)
  then tick rms now (set_frames (frames st ∖ {[h]}) st)
  else st.

(** [setupVoiceActivityDetection], from the creation of the analyser. *)
Definition setupVoiceActivityDetection (st : App) : App :=
  let st1 := set_analyserRef true (set_audioContextRef true st) in
  let st2 :=
    match vadRafRef st1 with
    | Some h => cancelAnimationFrame h st1
    | None => st1
    end in
  let '(h, st3) := requestAnimationFrame st2 in
  set_vadRafRef (Some h) st3.

(** ** Session start and stop *)

(** [stopSession].  Reading [peerConnection.current.getSenders] throws
    when there is no connection; nothing after it runs then. *)
Definition stopSession (st : App) : App :=
  if negb (peerConnection st) then st
  else
    let st1 :=
      match vadRafRef st with
      | Some h => set_vadRafRef None (cancelAnimationFrame h st)
      | None => st
      end in
    let st2 :=
      if audioContextRef st1
      then set_analyserRef false (set_audioContextRef false st1)
      else st1 in
    set_pendingCompletion None
      (set_completionReason (VStr "")
         (set_completionSummary (VStr "")
            (set_isInterviewCompleted false
               (set_interviewerState idle
                  (set_peerConnection false
                     (set_dataChannel false
                        (set_isSessionActive false st2))))))).

(** What [startSession] leaves in the cells the core reads: a new data
    channel in the cell, a new connection in the ref. *)
Definition startSession (st : App) : App :=
  let st1 := if peerConnection st then stopSession st else st in
  set_peerConnection true
    (set_dataChannel true (set_channel_id (S (channel_id st1)) st1)).

(** ** The deferred completion effect *)

Definition commit (st : App) : App :=
  if bool_decide (is_Some (pendingCompletion st)) &&
     PresentationState_eqb (interviewerState st) idle
  then set_pendingCompletion None (set_isInterviewCompleted true st)
  else st.

(** ** The scheduler's view *)

Inductive input :=
  | SessionStarted
  | ChannelOpen
  | ChannelMessage (e : event)
  | TextSent (message : string)
  | TimeoutFired (h : positive)
  | TrackAdded
  | AnimationFrame (h : positive) (rms now : Q)
  | StopClicked.

Definition handler (i : input) (st : App) : App :=
  match i with
  | SessionStarted => startSession st
  | ChannelOpen => handle_open st
  | ChannelMessage e => handle_message e st
  | TextSent message => handle_text message st
  | TimeoutFired h => handle_timeout h st
  | TrackAdded => setupVoiceActivityDetection st
  | AnimationFrame h rms now => handle_frame h rms now st
  | StopClicked => stopSession st
  end.

(** One callback, then the render it causes and its effects. *)
Definition step (st : App) (i : input) : App := commit (handler i st).

Definition run (inputs : list input) (st : App) : App := fold_left step inputs st.

End Core.

(** The reference reader and a counter-based identifier supply. *)
Definition reference_runtime : Runtime :=
  {| JSON_parse := JSON.parse; randomUUID := fun n => "uuid-" +:+ pretty n |}.

(** ** Vocabulary of the properties *)

Section Vocabulary.

Context `{RT : Runtime}.

(** The three guards of the tool block, as tests on an event. *)
Definition is_tool_event (e : event) : bool :=
  match looksLikeToolEvent (event_type e) with
  | Some true => true
  | _ => false
  end.

Definition identified (e : event) : bool :=
  JS.truthy (callId_of e) && JS.truthy (name_of e).

Definition is_terminal (e : event) : bool :=
  match isFinal (event_type e) with
  | Some true => true
  | _ => false
  end.

(** The invocation the tool block produces on an event, if it gets as
    far as producing one. *)
Definition produced_invocation (e : event) (st : App) : option ToolInvocation :=
  if is_tool_event e && identified e && is_terminal e
  then Some (finalize e (accumulate e st))
  else None.

(** The text an event contributes to its buffer. *)
Definition fragment_text (e : event) : string :=
  match delta_of e with
  | VStr d => d
  | _ => ""
  end.

(** A streamed fragment for the buffer [k]: a tool event that resolves a
    call identifier and a name, is not terminal, and carries text. *)
Definition fragment_event (k : string) (e : event) : Prop :=
  is_tool_event e = true ∧ identified e = true ∧
  buffer_key (callId_of e) = k ∧
  isFinal (event_type e) = Some false ∧
  ∃ d, delta_of e = VStr d.

(** A terminal event for the buffer [k]; it may carry text of its own. *)
Definition terminal_event (k : string) (e : event) : Prop :=
  is_tool_event e = true ∧ identified e = true ∧
  buffer_key (callId_of e) = k ∧
  is_terminal e = true ∧
  ((∃ d, delta_of e = VStr d) ∨ delta_of e = VUndefined).

(** Concatenation of texts in list order. *)
Definition concat_text (parts : list string) : string :=
  foldr String.append "" parts.

(** Structured decoding with the empty-record fallback. *)
Definition decode (raw : string) : value :=
  match JSON_parse raw with
  | Some v => v
  | None => VObj []
  end.

Definition nullish (v : value) : bool :=
  match v with
  | VUndefined | VNull => true
  | _ => false
  end.

(** The text a buffer holds, empty when there is none. *)
Definition buffer_text (st : App) (k : string) : string :=
  default "" (toolCallBuffersRef st !! k).

(** Every pending fallback timeout is the one [talkingTimeoutRef] names. *)
Definition fallback_inv (st : App) : Prop :=
  ∀ h d, timeouts st !! h = Some (d, ToIdle) → talkingTimeoutRef st = Some h.

(** Every pending frame request is the one [vadRafRef] names. *)
Definition sampler_inv (st : App) : Prop :=
  ∀ h, h ∈ frames st → vadRafRef st = Some h.

(** No fallback timeout is pending. *)
Definition fallback_cancelled (st : App) : Prop :=
  ∀ h d, timeouts st !! h ≠ Some (d, ToIdle).

(** The state a callback leaves, before the effects of the render. *)
Definition before_commit (st : App) (i : input) : App := handler i st.

(** The state the [n]-th callback of a run leaves, before the effects. *)
Definition moment (inputs : list input) (st : App) (n : nat) : option App :=
  match inputs !! n with
  | Some i => Some (before_commit (run (take n inputs) st) i)
  | None => None
  end.

(** A record is pending and the interviewer is idle: the condition the
    effect tests. *)
Definition ready (st : App) : bool :=
  bool_decide (is_Some (pendingCompletion st)) &&
  PresentationState_eqb (interviewerState st) idle.

(** The callbacks that run [stopSession]. *)
Definition ends_session (i : input) : bool :=
  match i with
  | StopClicked | SessionStarted => true
  | _ => false
  end.

(** Driver B on a sequence of samples (RMS, time). *)
Definition ticks (samples : list (Q * Q)) (st : App) : App :=
  fold_left (fun s x => tick (fst x) (snd x) s) samples st.

End Vocabulary.

(** ** Concrete inputs *)

Module Scenario.

Definition delta_type : string := "response.function_call_arguments.delta".
Definition done_type : string := "response.function_call_arguments.done".

(** A fragment for call [c1] that names its tool. *)
Definition fragment (text : string) : event :=
  [("type", VStr delta_type); ("call_id", VStr "c1");
   ("name", VStr "complete_interview"); ("delta", VStr (JSON.lit text))].

(** A fragment for call [c1] without a name, as in the second event of
    the first concrete scenario of the specification. *)
Definition unnamed_fragment (text : string) : event :=
  [("type", VStr delta_type); ("call_id", VStr "c1"); ("delta", VStr (JSON.lit text))].

Definition terminal : event :=
  [("type", VStr done_type); ("call_id", VStr "c1"); ("name", VStr "complete_interview")].

(** A terminal event that carries the whole argument text. *)
Definition terminal_with (text : string) : event :=
  [("type", VStr done_type); ("call_id", VStr "c1");
   ("name", VStr "complete_interview"); ("arguments", VStr (JSON.lit text))].

Definition other_tool_terminal : event :=
  [("type", VStr done_type); ("call_id", VStr "c2"); ("name", VStr "lookup")].

Definition talk_start : event := [("type", VStr "response.output_audio.delta")].
Definition talk_end : event := [("type", VStr "response.done")].

(** An established session whose greeting has run. *)
Definition live : App :=
  @run reference_runtime [SessionStarted; ChannelOpen; TimeoutFired 1; TrackAdded] initial.

(** The first concrete scenario of the specification: the second
    fragment carries no name. *)
Definition scenario_1 : list event :=
  [fragment "{'sum"; unnamed_fragment "mary':'Good job','reason':'finished_all_questions'}"].

(** The same two fragments, both naming the tool. *)
Definition named_fragments : list event :=
  [fragment "{'sum"; fragment "mary':'Good job','reason':'finished_all_questions'}"].

(** The acknowledgment text with the [output] the specification
    writes, a space after the colon. *)
Definition spec_output : string := JSON.lit "{'acknowledged': true}".

Definition spec_acknowledgment (callId : value) : string :=
  JSON.stringify
    (VObj [("type", VStr "tool.output"); ("call_id", callId); ("output", VStr spec_output)]).

(** A call in flight and the interviewer talking. *)
Definition in_flight : App :=
  @run reference_runtime
    [ChannelMessage (fragment "{'sum"); ChannelMessage talk_start] live.

(** A completion that arrives while the interviewer talks, and the end
    of the talk. *)
Definition completion_while_talking : list input :=
  [ChannelMessage talk_start;
   ChannelMessage (terminal_with "{'summary':'Good job'}");
   ChannelMessage talk_end].

(** A terminal event whose [arguments] is [null]. *)
Definition terminal_null : event :=
  [("type", VStr done_type); ("call_id", VStr "c1");
   ("name", VStr "complete_interview"); ("arguments", VNull)].

(** An event readdressed to the call identifier [constructor]. *)
Definition for_constructor (e : event) : event :=
  JS.obj_set e "call_id" (VStr "constructor").

(** A second completion that arrives while the interviewer talks. *)
Definition second_completion : list input :=
  [ChannelMessage talk_start; ChannelMessage (terminal_with "{'summary':'Second'}")].

(** A completion that arrives while the interviewer talks, and a stop. *)
Definition completion_then_stop : list input :=
  [ChannelMessage talk_start;
   ChannelMessage (terminal_with "{'summary':'Good job'}");
   StopClicked].

(** Samples (RMS, ms): one loud frame, then 0.03 for 200 ms. *)
Definition murmur : list (Q * Q) := [(3 # 100, 100); (3 # 100, 200)]%Q.

(** Samples (RMS, ms): 0.01 up to 250 ms after the loud frame. *)
Definition short_silence : list (Q * Q) := [(1 # 100, 100); (1 # 100, 250)]%Q.

End Scenario.

(** ** The countdown and its display *)

(** The first [n] characters of [pad] repeated; [rest] is what is left
    of the copy being written. *)
Fixpoint pad_fill (n : nat) (pad rest : string) : string :=
  match n with
  | O => ""
  | S n' =>
      match rest with
      | String c rest' => String c (pad_fill n' pad rest')
      | EmptyString =>
          match pad with
          | String c pad' => String c (pad_fill n' pad pad')
          | EmptyString => ""
          end
      end
  end.

(** [s.padStart(target, pad)]: filled on the left up to [target]
    characters, never cut. *)
Definition padStart (target : nat) (pad : string) (s : string) : string :=
  pad_fill (target - String.length s) pad pad +:+ s.

(** [formatTime]: [Math.floor(totalSeconds / 60)] and
    [totalSeconds % 60], each printed and padded to two characters. *)
Definition formatTime (totalSeconds : Z) : string :=
  padStart 2 "0" (JS.to_string (VNum (totalSeconds / 60))) +:+ ":" +:+
  padStart 2 "0" (JS.to_string (VNum (Z.rem totalSeconds 60))).

(** The updater of the one-second interval: [prev > 0 ? prev - 1 : 0]. *)
Definition decrement (prev : Z) : Z := if (0 <? prev)%Z then (prev - 1)%Z else 0%Z.

Module Countdown.

(** [remainingSeconds], [timerRef], and the intervals the browser has
    running with the next fresh handle. *)
Record t := {
  remainingSeconds : Z;
  timerRef : option positive;
  intervals : gset positive;
  next_interval : positive
}.

Definition initial : t :=
  {| remainingSeconds := 600; timerRef := None; intervals := ∅; next_interval := 1 |}.

(** The part of the [open] listener that resets and starts the
    countdown. *)
Definition on_open (c : t) : t :=
  let running :=
    match timerRef c with
    | Some h => intervals c ∖ {[h]}
    | None => intervals c
    end in
  {| remainingSeconds := 600;
     timerRef := Some (next_interval c);
     intervals := {[next_interval c]} ∪ running;
     next_interval := Pos.succ (next_interval c) |}.

(** One firing of the interval [h]. *)
Definition on_interval (h : positive) (c : t) : t :=
  if decide (h ∈ intervals c)
  then {| remainingSeconds := decrement (remainingSeconds c);
          timerRef := timerRef c; intervals := intervals c;
          next_interval := next_interval c |}
  else c.

(** The end of [stopSession]; it is not reached when there is no peer
    connection ([pc] false). *)
Definition on_stop (pc : bool) (c : t) : t :=
  if pc then
    match timerRef c with
    | Some h =>
        {| remainingSeconds := remainingSeconds c; timerRef := None;
           intervals := intervals c ∖ {[h]}; next_interval := next_interval c |}
    | None => c
    end
  else c.

Inductive input := Open | Interval (h : positive) | Stop (pc : bool).

Definition step (c : t) (i : input) : t :=
  match i with
  | Open => on_open c
  | Interval h => on_interval h c
  | Stop pc => on_stop pc c
  end.

Definition run (inputs : list input) (c : t) : t := fold_left step inputs c.

End Countdown.

(** Every running interval is the one [timerRef] names. *)
Definition interval_inv (c : Countdown.t) : Prop :=
  ∀ h, h ∈ Countdown.intervals c → Countdown.timerRef c = Some h.

(** The reading of a display back into seconds. *)
Definition read_clock (s : string) : option Z :=
  match JSON.read_digits 0 s with
  | (m, String ":" rest) =>
      match JSON.read_digits 0 rest with
      | (sec, EmptyString) => Some (60 * m + sec)%Z
      | _ => None
      end
  | _ => None
  end.

(** The display of [n] seconds has five characters, a colon in the
    middle, and reads back as [n]. *)
Definition clock_ok (n : nat) : bool :=
  let t := Z.of_nat n in
  (String.length (formatTime t) =? 5)%nat &&
  match String.get 2 (formatTime t) with
  | Some c => Ascii.eqb c ":"
  | None => false
  end &&
  match read_clock (formatTime t) with
  | Some t' => (t' =? t)%Z
  | None => false
  end.

(** ** The frame buffer of the analyser *)

(** [(data[i] - 128) / 128]. *)
Definition sample (d : Z) : Q := inject_Z (d - 128) / 128.

(** The loop that accumulates [sumSquares], and the mean whose square
    root is the RMS. *)
Definition sumSquares (data : list Z) : Q :=
  fold_left (fun acc d => (acc + sample d * sample d)%Q) data 0%Q.

Definition meanSquare (data : list Z) : Q :=
  (sumSquares data / inject_Z (Z.of_nat (length data)))%Q.

Definition is_byte (d : Z) : Prop := (0 <= d <= 255)%Z.

(** ** Further concrete inputs *)

Module Cases.

Import Scenario.

(** A frame buffer: silence, both extremes, silence. *)
Definition frame_bytes : list Z := [128; 255; 0; 128]%Z.

(** A session that has just started, and one whose channel has opened
    and whose greeting is still to come. *)
Definition started : App := @run reference_runtime [SessionStarted] initial.

Definition opened : App := @run reference_runtime [SessionStarted; ChannelOpen] initial.

(** Callbacks that do not concern the call [c1]. *)
Definition other_business : list input :=
  [ChannelMessage other_tool_terminal; ChannelMessage talk_start;
   TextSent "Could you please repeat the question?"; StopClicked].

(** A completion pending while the interviewer talks, and the same
    completion once shown. *)
Definition pending_talking : App :=
  @run reference_runtime (take 2 completion_while_talking) live.

Definition completed : App := @run reference_runtime completion_while_talking live.

(** The sampler has marked the interviewer speaking. *)
Definition speaking : App := tick (5 # 100) 0 live.

(** A talk-end event arrives while the interviewer is marked speaking. *)
Definition speaking_idle : App :=
  @step reference_runtime speaking (ChannelMessage talk_end).

(** The doubles written 0.1 and 300.1. *)
Definition d_0_1 : Q := round_double (1 # 10).
Definition d_300_1 : Q := round_double (3001 # 10).

(** The inputs that lead to [live], followed by a talk-start event. *)
Definition to_talking : list input :=
  [SessionStarted; ChannelOpen; TimeoutFired 1; TrackAdded; ChannelMessage talk_start].

End Cases.

(** ** Strings *)

Lemma str_app_nil_r (s : string) : s +:+ "" = s.
Proof.
  induction s as [|c s IH]; [done |].
  change (String c (s +:+ "") = String c s). by f_equal.
Qed.

Lemma str_app_assoc (a b c : string) : (a +:+ b) +:+ c = a +:+ (b +:+ c).
Proof.
  induction a as [|x a IH]; [done |].
  change (String x ((a +:+ b) +:+ c) = String x (a +:+ (b +:+ c))). by f_equal.
Qed.

Lemma str_eqb_empty (s : string) : String.eqb s "" = false ↔ s ≠ "".
Proof. apply String.eqb_neq. Qed.

Lemma truthy_str (s : string) : JS.truthy (VStr s) = true ↔ s ≠ "".
Proof.
  simpl. rewrite negb_true_iff. apply str_eqb_empty.
Qed.

Lemma truthy_str_false (s : string) : JS.truthy (VStr s) = false ↔ s = "".
Proof.
  simpl. rewrite negb_false_iff. apply String.eqb_eq.
Qed.

(** ** What each callback leaves alone *)

Section Frames.

Context `{RT : Runtime}.

Ltac unfold_tool :=
  unfold tool_block, route, cleanup, accumulate, store_set, sendClientEvent, send.

Ltac frame_tool :=
  intros; unfold_tool; repeat case_match; simplify_eq; reflexivity.

Lemma tool_block_interviewerState e st :
  interviewerState (fst (tool_block e st)) = interviewerState st.
Proof. frame_tool. Qed.

Lemma tool_block_isInterviewCompleted e st :
  isInterviewCompleted (fst (tool_block e st)) = isInterviewCompleted st.
Proof. frame_tool. Qed.

Lemma tool_block_timeouts e st :
  timeouts (fst (tool_block e st)) = timeouts st.
Proof. frame_tool. Qed.

Lemma tool_block_talkingTimeoutRef e st :
  talkingTimeoutRef (fst (tool_block e st)) = talkingTimeoutRef st.
Proof. frame_tool. Qed.

Lemma tool_block_frames e st :
  frames (fst (tool_block e st)) = frames st.
Proof. frame_tool. Qed.

Lemma tool_block_vadRafRef e st :
  vadRafRef (fst (tool_block e st)) = vadRafRef st.
Proof. frame_tool. Qed.

Ltac frame_talk :=
  intros; unfold talk_update, setTimeout, clear_talking_timeout, clearTimeout;
  repeat case_match; simplify_eq; reflexivity.

Lemma talk_update_toolCallBuffersRef e st :
  toolCallBuffersRef (talk_update e st) = toolCallBuffersRef st.
Proof. frame_talk. Qed.

Lemma talk_update_isInterviewCompleted e st :
  isInterviewCompleted (talk_update e st) = isInterviewCompleted st.
Proof. frame_talk. Qed.

Lemma talk_update_pendingCompletion e st :
  pendingCompletion (talk_update e st) = pendingCompletion st.
Proof. frame_talk. Qed.

Lemma talk_update_completionSummary e st :
  completionSummary (talk_update e st) = completionSummary st.
Proof. frame_talk. Qed.

Lemma talk_update_completionReason e st :
  completionReason (talk_update e st) = completionReason st.
Proof. frame_talk. Qed.

Lemma talk_update_sent e st : sent (talk_update e st) = sent st.
Proof. frame_talk. Qed.

Lemma talk_update_frames e st : frames (talk_update e st) = frames st.
Proof. frame_talk. Qed.

Lemma talk_update_vadRafRef e st : vadRafRef (talk_update e st) = vadRafRef st.
Proof. frame_talk. Qed.

(** The effect writes the completed flag and the pending record, and
    nothing else. *)
Lemma commit_cases st :
  commit st = st ∨
  (ready st = true ∧
   commit st = set_pendingCompletion None (set_isInterviewCompleted true st)).
Proof.
  unfold commit, ready. destruct (_ && _); [right | left]; done.
Qed.

Lemma commit_toolCallBuffersRef st :
  toolCallBuffersRef (commit st) = toolCallBuffersRef st.
Proof. unfold commit. by case_match. Qed.

Lemma commit_interviewerState st : interviewerState (commit st) = interviewerState st.
Proof. unfold commit. by case_match. Qed.

Lemma commit_sent st : sent (commit st) = sent st.
Proof. unfold commit. by case_match. Qed.

Lemma commit_timeouts st : timeouts (commit st) = timeouts st.
Proof. unfold commit. by case_match. Qed.

Lemma commit_talkingTimeoutRef st : talkingTimeoutRef (commit st) = talkingTimeoutRef st.
Proof. unfold commit. by case_match. Qed.

Lemma commit_frames st : frames (commit st) = frames st.
Proof. unfold commit. by case_match. Qed.

Lemma commit_vadRafRef st : vadRafRef (commit st) = vadRafRef st.
Proof. unfold commit. by case_match. Qed.

Lemma commit_isInterviewCompleted st :
  isInterviewCompleted (commit st) = isInterviewCompleted st || ready st.
Proof.
  unfold commit, ready. destruct (_ && _); simpl; [| by rewrite orb_false_r].
  by rewrite orb_true_r.
Qed.

Lemma run_snoc inputs i st : run (inputs ++ [i]) st = step (run inputs st) i.
Proof. unfold run. by rewrite fold_left_app. Qed.

Lemma run_cons i inputs st : run (i :: inputs) st = run inputs (step st i).
Proof. reflexivity. Qed.

End Frames.

(** ** Buffer reconstruction *)

Section Buffers.

Context `{RT : Runtime}.

Lemma tool_block_fragment k e st :
  fragment_event k e → tool_block e st = (accumulate e st, Normal).
Proof.
  intros (Htool & Hid & _ & Hfin & _).
  unfold tool_block, is_tool_event, identified in *.
  destruct (looksLikeToolEvent (event_type e)) as [[]|]; try done.
  by rewrite Hid, Hfin.
Qed.

Lemma tool_block_terminal e st inv :
  produced_invocation e st = Some inv →
  tool_block e st =
    match route inv (accumulate e st) with
    | Some st2 => (cleanup (callId_of e) st2, Normal)
    | None => (accumulate e st, Caught)
    end.
Proof.
  unfold produced_invocation, tool_block, is_tool_event, identified, is_terminal.
  destruct (looksLikeToolEvent (event_type e)) as [[]|]; try done.
  destruct (JS.truthy (callId_of e) && JS.truthy (name_of e)); try done.
  destruct (isFinal (event_type e)) as [[]|]; try done.
  intros [= <-]. by destruct (route _ _).
Qed.

Lemma produced_invocation_guards e st inv :
  produced_invocation e st = Some inv →
  is_tool_event e = true ∧ identified e = true ∧ is_terminal e = true ∧
  inv = finalize e (accumulate e st).
Proof.
  unfold produced_invocation.
  destruct (is_tool_event e), (identified e), (is_terminal e); simpl; try done.
  by intros [= <-].
Qed.

Lemma get_prop_not_nullish v k : nullish v = false → ∃ x, JS.get_prop v k = Some x.
Proof. destruct v; simpl; try done; eauto. Qed.

Lemma get_prop_some v k x : JS.get_prop v k = Some x → nullish v = false.
Proof. by destruct v. Qed.

(** The state the tool block leaves after a [complete_interview]
    invocation whose arguments can be read. *)
Lemma tool_block_complete e st inv s r :
  produced_invocation e st = Some inv →
  JS.is_str (name inv) "complete_interview" = true →
  JS.get_prop (arguments inv) "summary" = Some s →
  JS.get_prop (arguments inv) "reason" = Some r →
  tool_block e st =
    (cleanup (callId_of e)
       (sendClientEvent true (acknowledgment (call_id inv))
          (set_pendingCompletion
             (Some {| summary := JS.or s (VStr ""); reason := JS.or r (VStr "") |})
             (set_completionReason (JS.or r (VStr ""))
                (set_completionSummary (JS.or s (VStr "")) (accumulate e st))))),
     Normal).
Proof.
  intros Hinv Hname Hs Hr. rewrite (tool_block_terminal e st inv) by done.
  unfold route. by rewrite Hname, Hs, Hr.
Qed.

Lemma tool_block_other e st inv :
  produced_invocation e st = Some inv →
  JS.is_str (name inv) "complete_interview" = false →
  tool_block e st = (cleanup (callId_of e) (accumulate e st), Normal).
Proof.
  intros Hinv Hname. rewrite (tool_block_terminal e st inv) by done.
  unfold route. by rewrite Hname.
Qed.

Lemma inherited_proto k : inherited k = None → String.eqb k "__proto__" = false.
Proof. unfold inherited. by destruct (String.eqb k "__proto__"). Qed.

Lemma store_get_own st k s : toolCallBuffersRef st !! k = Some s → store_get k st = VStr s.
Proof. unfold store_get. by intros ->. Qed.

Lemma accumulate_text e st k d :
  inherited k = None →
  buffer_key (callId_of e) = k → delta_of e = VStr d →
  buffer_text (accumulate e st) k = buffer_text st k +:+ d.
Proof.
  intros Hin Hk Hd. unfold accumulate, buffer_text. rewrite Hd, Hk.
  destruct (JS.truthy (VStr d)) eqn:Ht.
  - unfold store_set. rewrite (inherited_proto k Hin). simpl.
    rewrite lookup_insert_eq. simpl. unfold store_get.
    destruct (toolCallBuffersRef st !! k) as [s|]; simpl.
    + unfold JS.or. destruct (JS.truthy (VStr s)) eqn:Hs; [done |].
      apply truthy_str_false in Hs. by subst.
    + by rewrite Hin.
  - apply truthy_str_false in Ht. subst. by rewrite str_app_nil_r.
Qed.

Lemma accumulate_none e st : delta_of e = VUndefined → accumulate e st = st.
Proof. intros Hd. unfold accumulate. by rewrite Hd. Qed.

Lemma step_fragment k e st :
  inherited k = None →
  fragment_event k e →
  buffer_text (step st (ChannelMessage e)) k = buffer_text st k +:+ fragment_text e.
Proof.
  intros Hin Hf. pose proof Hf as (_ & _ & Hk & _ & d & Hd).
  unfold step, buffer_text; simpl. unfold handle_message.
  rewrite commit_toolCallBuffersRef, talk_update_toolCallBuffersRef.
  rewrite (tool_block_fragment k) by done. simpl.
  unfold fragment_text. rewrite Hd. by apply accumulate_text.
Qed.

Lemma run_fragments k frags st :
  inherited k = None →
  Forall (fragment_event k) frags →
  buffer_text (run (ChannelMessage <$> frags) st) k =
    buffer_text st k +:+ concat_text (fragment_text <$> frags).
Proof.
  intros Hin Hall. revert st.
  induction Hall as [|e frags He _ IH]; intros st.
  - simpl. by rewrite str_app_nil_r.
  - rewrite !fmap_cons, run_cons, IH, (step_fragment k) by done.
    simpl. by rewrite str_app_assoc.
Qed.

Lemma buffer_text_lookup st k raw :
  buffer_text st k = raw → raw ≠ "" → toolCallBuffersRef st !! k = Some raw.
Proof.
  unfold buffer_text. destruct (toolCallBuffersRef st !! k); simpl; congruence.
Qed.

(** What the terminal event of a call finds in the store after its
    fragments. *)
Lemma terminal_finds_text k frags t st :
  inherited k = None →
  toolCallBuffersRef st !! k = None →
  Forall (fragment_event k) frags →
  terminal_event k t →
  concat_text (fragment_text <$> frags) +:+ fragment_text t ≠ "" →
  finalize t (accumulate t (run (ChannelMessage <$> frags) st)) =
    {| name := name_of t; call_id := callId_of t;
       arguments := decode (concat_text (fragment_text <$> frags) +:+ fragment_text t) |}.
Proof.
  intros Hin Hnone Hfrags (Htool & Hid & Hk & Hterm & Hd) Hraw.
  unfold finalize. f_equal.
  set (st1 := run (ChannelMessage <$> frags) st).
  assert (buffer_text (accumulate t st1) k =
          concat_text (fragment_text <$> frags) +:+ fragment_text t) as Htext.
  { assert (buffer_text st1 k = concat_text (fragment_text <$> frags)) as H1.
    { unfold st1. rewrite (run_fragments k) by done.
      unfold buffer_text at 1. by rewrite Hnone. }
    destruct Hd as [[d Hd] | Hd].
    - rewrite (accumulate_text t st1 k d) by done.
      unfold fragment_text. by rewrite Hd, H1.
    - rewrite accumulate_none by done.
      unfold fragment_text. by rewrite Hd, str_app_nil_r. }
  apply buffer_text_lookup in Htext; [| done].
  unfold rawArgs_of. rewrite Hk, (store_get_own _ _ _ Htext). simpl.
  apply str_eqb_empty in Hraw. rewrite Hraw. simpl.
  unfold parse_args, decode. simpl. by rewrite Hraw.
Qed.

(** C1 (as amended).  Fragments that resolve a call identifier and a
    name, sent for a call that has no buffer yet and whose identifier
    names no member a plain object inherits, and followed by a terminal
    event for the same call: the listener hands on, at the terminal
    event, the invocation whose arguments are the decoding of the
    concatenation, in arrival order, of the fragments and of the text
    the terminal event itself carries, when that text is not empty (a
    text that does not parse decodes to the empty record).  For
    [complete_interview] the summary and the reason the callback
    displays and marks pending are read from that decoding. *)
Theorem buffer_reconstruction (k : string) (frags : list event) (t : event) (st : App) :
  inherited k = None →
  toolCallBuffersRef st !! k = None →
  Forall (fragment_event k) frags →
  terminal_event k t →
  concat_text (fragment_text <$> frags) +:+ fragment_text t ≠ "" →
  let st1 := run (ChannelMessage <$> frags) st in
  let inv :=
    {| name := name_of t; call_id := callId_of t;
       arguments := decode (concat_text (fragment_text <$> frags) +:+ fragment_text t) |} in
  produced_invocation t st1 = Some inv ∧
  tool_block t st1 =
    match route inv (accumulate t st1) with
    | Some st2 => (cleanup (callId_of t) st2, Normal)
    | None => (accumulate t st1, Caught)
    end ∧
  ∀ s r,
    JS.is_str (name_of t) "complete_interview" = true →
    JS.get_prop (arguments inv) "summary" = Some s →
    JS.get_prop (arguments inv) "reason" = Some r →
    completionSummary (step st1 (ChannelMessage t)) = JS.or s (VStr "") ∧
    completionReason (step st1 (ChannelMessage t)) = JS.or r (VStr "") ∧
    pendingCompletion (handle_message t st1) =
      Some {| summary := JS.or s (VStr ""); reason := JS.or r (VStr "") |}.
Proof.
  intros Hin Hnone Hfrags Ht Hraw st1 inv.
  pose proof (terminal_finds_text k frags t st Hin Hnone Hfrags Ht Hraw) as Hfin.
  fold st1 in Hfin. fold inv in Hfin.
  destruct Ht as (Htool & Hid & Hk & Hterm & Hd).
  assert (produced_invocation t st1 = Some inv) as Hinv.
  { unfold produced_invocation. rewrite Htool, Hid, Hterm. simpl. by rewrite Hfin. }
  split; [done |]. split; [by apply tool_block_terminal |].
  intros s r Hname Hs Hr.
  pose proof (tool_block_complete t st1 inv s r Hinv Hname Hs Hr) as Hblock.
  assert (completionSummary (handle_message t st1) = JS.or s (VStr "") ∧
          completionReason (handle_message t st1) = JS.or r (VStr "") ∧
          pendingCompletion (handle_message t st1) =
            Some {| summary := JS.or s (VStr ""); reason := JS.or r (VStr "") |})
    as (H1 & H2 & H3).
  { unfold handle_message.
    rewrite talk_update_completionSummary, talk_update_completionReason,
      talk_update_pendingCompletion, Hblock.
    by repeat split. }
  split; [| split; [| done]]; unfold step; simpl.
  - by destruct (commit_cases (handle_message t st1)) as [-> | [_ ->]].
  - by destruct (commit_cases (handle_message t st1)) as [-> | [_ ->]].
Qed.

End Buffers.

(** ** Finalization: arguments, completion record, acknowledgment *)

Section Finalization.

Context `{RT : Runtime}.

Lemma cleanup_sent callId st : sent (cleanup callId st) = sent st.
Proof. reflexivity. Qed.

Lemma accumulate_sent e st : sent (accumulate e st) = sent st.
Proof. unfold accumulate, store_set. by repeat case_match. Qed.

Lemma accumulate_uuids e st : uuids (accumulate e st) = uuids st.
Proof. unfold accumulate, store_set. by repeat case_match. Qed.

(** The acknowledgment as it goes on the wire. *)
Lemma send_acknowledgment callId st :
  sent (sendClientEvent true (acknowledgment callId) st) =
    (sent st ++
     [JSON.stringify
        (VObj [("type", VStr "tool.output");
               ("call_id", callId);
               ("output", VStr (JSON.lit "{'acknowledged':true}"));
               ("event_id", VStr (randomUUID (uuids st)))])])%list.
Proof. reflexivity. Qed.

(** C3 (as amended): a finalized [complete_interview] invocation whose
    decoded arguments are not [null] makes the callback that finalizes
    it send exactly one acknowledgment, whatever the interviewer state:
    the JSON text of an object with [type] "tool.output", the call
    identifier of the invocation, [output] the text
    [{"acknowledged":true}] (no white space) and a fresh [event_id].
    An invocation of another tool name sends nothing. *)
Theorem acknowledgment_on_finalization (e : event) (st : App) (inv : ToolInvocation) :
  produced_invocation e st = Some inv →
  (JS.is_str (name inv) "complete_interview" = true →
   nullish (arguments inv) = false →
   sent (step st (ChannelMessage e)) =
     (sent st ++
      [JSON.stringify
         (VObj [("type", VStr "tool.output");
                ("call_id", call_id inv);
                ("output", VStr (JSON.lit "{'acknowledged':true}"));
                ("event_id", VStr (randomUUID (uuids st)))])])%list) ∧
  (JS.is_str (name inv) "complete_interview" = false →
   sent (step st (ChannelMessage e)) = sent st).
Proof.
  intros Hinv. split; intros Hname.
  - intros Hnull.
    destruct (get_prop_not_nullish (arguments inv) "summary" Hnull) as [s Hs].
    destruct (get_prop_not_nullish (arguments inv) "reason" Hnull) as [r Hr].
    unfold step; simpl. unfold handle_message.
    rewrite commit_sent, talk_update_sent.
    rewrite (tool_block_complete e st inv s r) by done.
    cbn [fst]. rewrite cleanup_sent, send_acknowledgment.
    cbn [sent uuids set_pendingCompletion set_completionReason set_completionSummary].
    by rewrite accumulate_sent, accumulate_uuids.
  - unfold step; simpl. unfold handle_message.
    rewrite commit_sent, talk_update_sent.
    rewrite (tool_block_other e st inv) by done.
    cbn [fst]. by rewrite cleanup_sent, accumulate_sent.
Qed.

(** X22: a terminal event for a call with nothing buffered and an
    identifier that names no inherited member, carrying no text and no
    [arguments] of type object, and likewise a terminal event whose raw
    text does not parse, is handed on with the empty record.  The tool
    block runs to its end without an exception and removes the buffer;
    for [complete_interview] it displays and marks pending the empty
    summary and reason and sends the acknowledgment. *)
Theorem empty_record_degradation (e : event) (st : App) :
  is_tool_event e = true → identified e = true → is_terminal e = true →
  (toolCallBuffersRef st !! buffer_key (callId_of e) = None ∧
   inherited (buffer_key (callId_of e)) = None ∧
   JS.truthy (delta_of e) = false ∧
   JS.typeof (JS.obj_get e "arguments") ≠ JS.TObject) ∨
  (∃ raw, rawArgs_of e (accumulate e st) = VStr raw ∧ JSON_parse raw = None) →
  produced_invocation e st =
    Some {| name := name_of e; call_id := callId_of e; arguments := VObj [] |} ∧
  tool_block e st =
    (cleanup (callId_of e)
       (if JS.is_str (name_of e) "complete_interview"
        then sendClientEvent true (acknowledgment (callId_of e))
               (set_pendingCompletion (Some {| summary := VStr ""; reason := VStr "" |})
                  (set_completionReason (VStr "")
                     (set_completionSummary (VStr "") (accumulate e st))))
        else accumulate e st),
     Normal).
Proof.
  intros Htool Hid Hterm Hcase.
  assert (parse_args (rawArgs_of e (accumulate e st)) = VObj []) as Hargs.
  { destruct Hcase as [(Hnone & Hin & Hdelta & Hty) | (raw & Hraw & Hparse)].
    - unfold accumulate. rewrite Hdelta.
      unfold rawArgs_of, store_get. rewrite Hnone, Hin. simpl.
      by destruct (JS.typeof (JS.obj_get e "arguments")).
    - rewrite Hraw. unfold parse_args. simpl. rewrite Hparse. by case_match. }
  assert (produced_invocation e st =
          Some {| name := name_of e; call_id := callId_of e; arguments := VObj [] |})
    as Hinv.
  { unfold produced_invocation. rewrite Htool, Hid, Hterm. simpl.
    unfold finalize. by rewrite Hargs. }
  split; [done |].
  rewrite (tool_block_terminal e st _ Hinv).
  unfold route. cbn [name arguments call_id JS.get_prop].
  by destruct (JS.is_str (name_of e) "complete_interview").
Qed.

(** C9 (as amended): the summary and the reason of the completion record
    are the corresponding argument fields when these are truthy, of
    whatever type, and the empty string when they are missing or falsy
    ([null], [false], [0], the empty string). *)
Theorem completion_record_defaults (e : event) (st : App) (inv : ToolInvocation)
    (s r : value) :
  produced_invocation e st = Some inv →
  JS.is_str (name inv) "complete_interview" = true →
  JS.get_prop (arguments inv) "summary" = Some s →
  JS.get_prop (arguments inv) "reason" = Some r →
  pendingCompletion (handle_message e st) =
    Some {| summary := if JS.truthy s then s else VStr "";
            reason := if JS.truthy r then r else VStr "" |}.
Proof.
  intros Hinv Hname Hs Hr. unfold handle_message.
  rewrite talk_update_pendingCompletion.
  rewrite (tool_block_complete e st inv s r) by done.
  reflexivity.
Qed.

(** X23: the callback that finalizes a [complete_interview] invocation
    whose arguments are not [null] writes the displayed summary and
    reason itself and leaves the completed flag as it was, whatever
    record is pending or shown; the effect that promotes a pending
    record changes the completed flag and the pending record and nothing
    else. *)
Theorem summary_written_at_finalization (e : event) (st : App) (inv : ToolInvocation)
    (s r : value) :
  produced_invocation e st = Some inv →
  JS.is_str (name inv) "complete_interview" = true →
  JS.get_prop (arguments inv) "summary" = Some s →
  JS.get_prop (arguments inv) "reason" = Some r →
  (completionSummary (before_commit st (ChannelMessage e)) = JS.or s (VStr "") ∧
   completionReason (before_commit st (ChannelMessage e)) = JS.or r (VStr "") ∧
   isInterviewCompleted (before_commit st (ChannelMessage e)) = isInterviewCompleted st) ∧
  (completionSummary (step st (ChannelMessage e)) = JS.or s (VStr "") ∧
   completionReason (step st (ChannelMessage e)) = JS.or r (VStr "")) ∧
  (∀ st0 : App,
     commit st0 = st0 ∨
     commit st0 = set_pendingCompletion None (set_isInterviewCompleted true st0)).
Proof.
  intros Hinv Hname Hs Hr.
  assert (completionSummary (handle_message e st) = JS.or s (VStr "") ∧
          completionReason (handle_message e st) = JS.or r (VStr "") ∧
          isInterviewCompleted (handle_message e st) = isInterviewCompleted st)
    as (H1 & H2 & H3).
  { unfold handle_message.
    rewrite talk_update_completionSummary, talk_update_completionReason,
      talk_update_isInterviewCompleted.
    rewrite (tool_block_complete e st inv s r) by done.
    repeat split. simpl. unfold accumulate, store_set. by repeat case_match. }
  split; [done |]. split.
  - unfold step; simpl.
    destruct (commit_cases (handle_message e st)) as [-> | [_ ->]]; done.
  - intros st0. destruct (commit_cases st0) as [? | [_ ?]]; auto.
Qed.

(** Unless the hand-off throws, the buffer of a terminal event is gone
    when the callback returns. *)
Lemma buffer_deleted_unless_caught e st inv :
  produced_invocation e st = Some inv →
  snd (tool_block e st) = Normal →
  toolCallBuffersRef (handle_message e st) !! buffer_key (callId_of e) = None.
Proof.
  intros Hinv. unfold handle_message.
  rewrite talk_update_toolCallBuffersRef.
  rewrite (tool_block_terminal e st inv) by done.
  destruct (route inv (accumulate e st)); [| done].
  intros _. simpl. apply lookup_delete_eq.
Qed.

End Finalization.

(** ** Deferred visibility *)

Section Visibility.

Context `{RT : Runtime}.

Lemma sendClientEvent_isInterviewCompleted dc m st :
  isInterviewCompleted (sendClientEvent dc m st) = isInterviewCompleted st.
Proof.
  unfold sendClientEvent, send. destruct dc; [| done].
  by destruct (JS.truthy _).
Qed.

(** Only teardown and the effect write the completed flag. *)
Lemma handler_isInterviewCompleted i st :
  ends_session i = false →
  isInterviewCompleted (handler i st) = isInterviewCompleted st.
Proof.
  destruct i; simpl; try done; intros _.
  - unfold handle_message.
    by rewrite talk_update_isInterviewCompleted, tool_block_isInterviewCompleted.
  - unfold handle_text, sendTextMessage.
    by rewrite !sendClientEvent_isInterviewCompleted.
  - unfold handle_timeout, run_callback, greet, send. by repeat case_match.
  - unfold setupVoiceActivityDetection, requestAnimationFrame, cancelAnimationFrame.
    by repeat case_match.
  - unfold handle_frame, tick, requestAnimationFrame. by repeat case_match.
Qed.

Lemma step_isInterviewCompleted i st :
  ends_session i = false →
  isInterviewCompleted (step st i) =
    isInterviewCompleted st || ready (before_commit st i).
Proof.
  intros Hi. unfold step, before_commit.
  by rewrite commit_isInterviewCompleted, handler_isInterviewCompleted.
Qed.

Lemma tool_block_pending e st :
  is_Some (pendingCompletion st) → is_Some (pendingCompletion (fst (tool_block e st))).
Proof.
  intros Hp. unfold tool_block, route, cleanup, accumulate, store_set, sendClientEvent, send.
  repeat case_match; simplify_eq; simpl; eauto.
Qed.

(** Only teardown and the effect clear the pending record. *)
Lemma handler_pending i st :
  ends_session i = false →
  is_Some (pendingCompletion st) → is_Some (pendingCompletion (handler i st)).
Proof.
  destruct i; simpl; try done; intros _ Hp.
  - unfold handle_message. rewrite talk_update_pendingCompletion.
    by apply tool_block_pending.
  - unfold handle_text, sendTextMessage, sendClientEvent, send. simpl.
    destruct (dataChannel st); [| done]. by repeat destruct (JS.truthy _).
  - unfold handle_timeout, run_callback, greet, send. by repeat case_match.
  - unfold setupVoiceActivityDetection, requestAnimationFrame, cancelAnimationFrame.
    by repeat case_match.
  - unfold handle_frame, tick, requestAnimationFrame. by repeat case_match.
Qed.

Lemma ready_spec st :
  ready st = true ↔ is_Some (pendingCompletion st) ∧ interviewerState st = idle.
Proof.
  unfold ready. rewrite andb_true_iff, bool_decide_eq_true.
  destruct (interviewerState st); simpl; intuition congruence.
Qed.

Lemma commit_not_ready st : ready st = false → commit st = st.
Proof. unfold commit, ready. by intros ->. Qed.

Lemma moment_snoc_lt inputs i st n :
  (n < length inputs)%nat → moment (inputs ++ [i]) st n = moment inputs st n.
Proof.
  intros Hn. unfold moment.
  rewrite lookup_app_l by done. by rewrite take_app_le by lia.
Qed.

Lemma moment_snoc_last inputs i st :
  moment (inputs ++ [i]) st (length inputs) = Some (before_commit (run inputs st) i).
Proof.
  unfold moment. rewrite list_lookup_middle by done. by rewrite take_app_length.
Qed.

Lemma moment_lt inputs st n s : moment inputs st n = Some s → (n < length inputs)%nat.
Proof.
  unfold moment. destruct (inputs !! n) eqn:Hn; [| done].
  intros _. by apply lookup_lt_Some in Hn.
Qed.

(** The state before the next callback is the committed previous moment. *)
Lemma moment_succ inputs st n s' :
  moment inputs st (S n) = Some s' →
  ∃ s i, moment inputs st n = Some s ∧ inputs !! S n = Some i ∧
         s' = handler i (commit s).
Proof.
  unfold moment. destruct (inputs !! S n) as [i'|] eqn:Hi'; [| done].
  intros [= <-].
  destruct (lookup_lt_is_Some_2 inputs n) as [i Hi].
  { apply lookup_lt_Some in Hi'. lia. }
  rewrite Hi. eexists _, i'. split; [done |]. split; [done |].
  unfold before_commit. by rewrite (take_S_r _ _ i), run_snoc.
Qed.

(** The completed flag is set by the first ready moment, and only so. *)
Lemma completed_iff_ready inputs st :
  isInterviewCompleted st = false →
  Forall (fun i => ends_session i = false) inputs →
  isInterviewCompleted (run inputs st) = true ↔
  ∃ n s, moment inputs st n = Some s ∧ ready s = true.
Proof.
  intros Hinit Hns.
  induction inputs as [|i inputs IH] using rev_ind.
  - simpl. rewrite Hinit. split; [done |]. by intros (n & s & Hm & _).
  - apply Forall_app in Hns as [Hns Hi]. apply Forall_inv in Hi.
    rewrite run_snoc, (step_isInterviewCompleted i _ Hi), orb_true_iff.
    split.
    + intros [Hc | Hr].
      * apply IH in Hc as (n & s & Hm & Hr); [| done].
        exists n, s. split; [| done].
        rewrite moment_snoc_lt; [done | by apply moment_lt in Hm].
      * exists (length inputs), (before_commit (run inputs st) i).
        by rewrite moment_snoc_last.
    + intros (n & s & Hm & Hr).
      destruct (decide (n < length inputs)%nat) as [Hlt | Hge].
      * left. apply IH; [done |]. exists n, s.
        by rewrite moment_snoc_lt in Hm.
      * right. pose proof (moment_lt _ _ _ _ Hm) as Hn.
        rewrite length_app in Hn. simpl in Hn.
        assert (n = length inputs) as -> by lia.
        rewrite moment_snoc_last in Hm. by simplify_eq.
Qed.

(** A record marked pending stays pending until a ready moment. *)
Lemma pending_until_ready inputs st j k sj sk :
  Forall (fun i => ends_session i = false) inputs →
  (j <= k)%nat →
  moment inputs st j = Some sj → is_Some (pendingCompletion sj) →
  moment inputs st k = Some sk →
  (∃ n s, moment inputs st n = Some s ∧ ready s = true) ∨
  is_Some (pendingCompletion sk).
Proof.
  intros Hns Hjk Hj Hp. revert sk.
  induction Hjk as [|k Hjk IH]; intros sk Hk.
  - right. congruence.
  - apply moment_succ in Hk as (s & i & Hs & Hi & ->).
    destruct (IH s Hs) as [Hr | Hps]; [by left |].
    destruct (ready s) eqn:Hr; [left; eauto |].
    right. rewrite commit_not_ready by done.
    apply handler_pending; [| done].
    rewrite Forall_lookup in Hns. by apply (Hns (S k)).
Qed.

(** C2 (as amended): within a session (no teardown or restart among the
    callbacks), starting with no completion shown, the completed flag is
    set at the end of a run exactly when a record was marked pending by
    some callback and the interviewer was idle after that callback or a
    later one; in particular it stays unset in every run all of whose
    callbacks leave the interviewer talking. *)
Theorem deferred_visibility (inputs : list input) (st : App) :
  isInterviewCompleted st = false →
  Forall (fun i => ends_session i = false) inputs →
  (isInterviewCompleted (run inputs st) = true ↔
   ∃ j k sj sk, (j <= k)%nat ∧
                moment inputs st j = Some sj ∧ is_Some (pendingCompletion sj) ∧
                moment inputs st k = Some sk ∧ interviewerState sk = idle) ∧
  ((∀ k sk, moment inputs st k = Some sk → interviewerState sk = talking) →
   isInterviewCompleted (run inputs st) = false).
Proof.
  intros Hinit Hns.
  pose proof (completed_iff_ready inputs st Hinit Hns) as Hiff.
  split.
  - rewrite Hiff. split.
    + intros (n & s & Hm & [Hp Hidle]%ready_spec).
      exists n, n, s, s. eauto.
    + intros (j & k & sj & sk & Hjk & Hj & Hp & Hk & Hidle).
      destruct (pending_until_ready inputs st j k sj sk Hns Hjk Hj Hp Hk)
        as [Hr | Hpk]; [done |].
      exists k, sk. split; [done |]. by apply ready_spec.
  - intros Htalk. apply not_true_is_false. rewrite Hiff.
    intros (n & s & Hm & [_ Hidle]%ready_spec).
    rewrite (Htalk n s Hm) in Hidle. done.
Qed.

End Visibility.

(** ** Driver A: the fallback timeout *)

Section DriverA.

Context `{RT : Runtime}.

Lemma talk_end_not_delta t : isTalkEnd t = true → isTalkDelta t = false.
Proof.
  unfold isTalkEnd. rewrite !orb_true_iff, !String.eqb_eq.
  intros [[-> | ->] | ->]; reflexivity.
Qed.

Lemma talk_delta_not_end t : isTalkDelta t = true → isTalkEnd t = false.
Proof.
  intros Hd. destruct (isTalkEnd t) eqn:He; [| done].
  apply talk_end_not_delta in He. congruence.
Qed.

Lemma handler_fallback_inv i st : fallback_inv st → fallback_inv (handler i st).
Proof.
  unfold fallback_inv. intros Hinv.
  assert (∀ s, (∀ h d, timeouts s !! h = Some (d, ToIdle) → talkingTimeoutRef s = Some h) →
               ∀ h d, timeouts (stopSession s) !! h = Some (d, ToIdle) →
                      talkingTimeoutRef (stopSession s) = Some h) as Hstop.
  { intros s Hs h d. unfold stopSession, cancelAnimationFrame.
    repeat case_match; simpl; apply Hs. }
  destruct i; simpl.
  - unfold startSession. case_match; simpl; [by apply Hstop | done].
  - unfold handle_open, setTimeout. simpl. intros h d.
    rewrite lookup_insert. case_decide; [done | apply Hinv].
  - unfold handle_message. intros h d.
    unfold talk_update.
    rewrite <- (tool_block_timeouts e st), <- (tool_block_talkingTimeoutRef e st) in Hinv.
    destruct (event_type e); try apply Hinv.
    set (st0 := fst (tool_block e st)) in *.
    destruct (isTalkDelta s) eqn:Hd.
    + rewrite talk_delta_not_end by done.
      unfold setTimeout, clear_talking_timeout, clearTimeout; simpl.
      destruct (talkingTimeoutRef st0) as [h0|] eqn:Href; simpl.
      * rewrite lookup_insert. case_decide; [by intros; subst |].
        rewrite lookup_delete. case_decide; [done |].
        intros Hh. apply Hinv in Hh. congruence.
      * rewrite lookup_insert. case_decide; [by intros; subst |].
        intros Hh. apply Hinv in Hh. congruence.
    + destruct (isTalkEnd s); [| apply Hinv].
      unfold clear_talking_timeout, clearTimeout; simpl.
      destruct (talkingTimeoutRef st0) as [h0|] eqn:Href; simpl.
      * rewrite lookup_delete. case_decide; [done |]. rewrite Href. apply Hinv.
      * rewrite Href. apply Hinv.
  - unfold handle_text, sendTextMessage, sendClientEvent, send.
    simpl. destruct (dataChannel st); [| done].
    intros h d. repeat destruct (JS.truthy _); simpl; apply Hinv.
  - unfold handle_timeout. destruct (timeouts st !! h) as [[d0 cb]|] eqn:Hh; [| done].
    intros h' d'. destruct cb; simpl; unfold greet, send; repeat case_match; simpl;
      rewrite lookup_delete; case_decide; try done; apply Hinv.
  - unfold setupVoiceActivityDetection, requestAnimationFrame, cancelAnimationFrame.
    repeat case_match; simpl; apply Hinv.
  - unfold handle_frame, tick, requestAnimationFrame.
    repeat case_match; simpl; apply Hinv.
  - by apply Hstop.
Qed.

Lemma step_fallback_inv i st : fallback_inv st → fallback_inv (step st i).
Proof.
  intros Hinv%(handler_fallback_inv i). unfold step, fallback_inv.
  by rewrite commit_timeouts, commit_talkingTimeoutRef.
Qed.

Lemma run_fallback_inv inputs st : fallback_inv st → fallback_inv (run inputs st).
Proof.
  revert st. induction inputs as [|i inputs IH]; intros st Hinv; [done |].
  rewrite run_cons. by apply IH, step_fallback_inv.
Qed.

Lemma initial_fallback_inv : fallback_inv initial.
Proof. intros h d. cbn [initial timeouts]. by rewrite lookup_empty. Qed.

End DriverA.

Section DriverATheorem.

Context `{RT : Runtime}.

Lemma talking_or_talking (p : PresentationState) :
  (if negb (PresentationState_eqb p talking) then talking else p) = talking.
Proof. by destruct p. Qed.

(** What the listener leaves on a talk-start event. *)
Lemma handle_message_talk_start e t st :
  event_type e = VStr t → isTalkDelta t = true →
  let st0 := fst (tool_block e st) in
  interviewerState (handle_message e st) = talking ∧
  talkingTimeoutRef (handle_message e st) = Some (next_handle st0) ∧
  timeouts (handle_message e st) =
    <[next_handle st0 := (TALKING_HOLD_MS, ToIdle)]>
      (match talkingTimeoutRef st with
       | Some h0 => delete h0 (timeouts st)
       | None => timeouts st
       end).
Proof.
  intros Hty Hd st0. unfold handle_message, talk_update. fold st0.
  rewrite Hty, Hd, (talk_delta_not_end t Hd).
  rewrite <- (tool_block_timeouts e st), <- (tool_block_talkingTimeoutRef e st).
  fold st0. unfold setTimeout, clear_talking_timeout, clearTimeout.
  destruct (talkingTimeoutRef st0) eqn:Href; simpl; rewrite ?Href;
    by rewrite talking_or_talking.
Qed.

(** What the listener leaves on a talk-end event. *)
Lemma handle_message_talk_end e t st :
  event_type e = VStr t → isTalkEnd t = true →
  interviewerState (handle_message e st) = idle ∧
  timeouts (handle_message e st) =
    match talkingTimeoutRef st with
    | Some h0 => delete h0 (timeouts st)
    | None => timeouts st
    end.
Proof.
  intros Hty He. unfold handle_message, talk_update.
  rewrite Hty, He, (talk_end_not_delta t He).
  rewrite <- (tool_block_timeouts e st), <- (tool_block_talkingTimeoutRef e st).
  unfold clear_talking_timeout, clearTimeout.
  by destruct (talkingTimeoutRef (fst (tool_block e st))).
Qed.

(** A pending fallback timeout, when it fires, forces idle. *)
Lemma fallback_expiry st h d :
  timeouts st !! h = Some (d, ToIdle) →
  interviewerState (step st (TimeoutFired h)) = idle.
Proof.
  intros Hh. unfold step; simpl. rewrite commit_interviewerState.
  unfold handle_timeout. by rewrite Hh.
Qed.

(** C6: on a talk-start event the listener leaves the interviewer
    talking and exactly one fallback timeout pending, of 4000 ms, the
    one [talkingTimeoutRef] names, whose expiry forces idle; on a
    talk-end event it leaves the interviewer idle and no fallback
    timeout pending. *)
Theorem driver_a_fallback (e : event) (t : string) (st : App) :
  event_type e = VStr t →
  fallback_inv st →
  (isTalkDelta t = true →
   interviewerState (step st (ChannelMessage e)) = talking ∧
   ∃ h, talkingTimeoutRef (step st (ChannelMessage e)) = Some h ∧
        timeouts (step st (ChannelMessage e)) !! h = Some (4000%Z, ToIdle) ∧
        (∀ h' d, timeouts (step st (ChannelMessage e)) !! h' = Some (d, ToIdle) → h' = h) ∧
        interviewerState (step (step st (ChannelMessage e)) (TimeoutFired h)) = idle) ∧
  (isTalkEnd t = true →
   interviewerState (step st (ChannelMessage e)) = idle ∧
   fallback_cancelled (step st (ChannelMessage e))).
Proof.
  intros Hty Hinv. split.
  - intros Hd.
    destruct (handle_message_talk_start e t st Hty Hd) as (Hs & Href & Hto).
    pose proof (step_fallback_inv (ChannelMessage e) st Hinv) as Hinv'.
    assert (timeouts (step st (ChannelMessage e)) !! next_handle (fst (tool_block e st)) =
            Some (4000%Z, ToIdle)) as Hpending.
    { unfold step; simpl. rewrite commit_timeouts, Hto. apply lookup_insert_eq. }
    split.
    { unfold step; simpl. by rewrite commit_interviewerState. }
    exists (next_handle (fst (tool_block e st))). repeat split.
    + unfold step; simpl. by rewrite commit_talkingTimeoutRef.
    + done.
    + intros h' d Hh'. apply Hinv' in Hh'.
      unfold step in Hh'; simpl in Hh'.
      rewrite commit_talkingTimeoutRef, Href in Hh'. congruence.
    + by apply (fallback_expiry _ _ 4000%Z).
  - intros He.
    destruct (handle_message_talk_end e t st Hty He) as (Hs & Hto).
    split.
    { unfold step; simpl. by rewrite commit_interviewerState. }
    intros h d. unfold step; simpl. rewrite commit_timeouts, Hto.
    destruct (talkingTimeoutRef st) as [h0|] eqn:Href.
    + rewrite lookup_delete. case_decide; [done |].
      intros Hh. apply Hinv in Hh. congruence.
    + intros Hh. apply Hinv in Hh. congruence.
Qed.

End DriverATheorem.

(** ** Teardown *)

Section Teardown.

Context `{RT : Runtime}.

Lemma sampler_inv_cancel st h :
  sampler_inv st → vadRafRef st = Some h → frames st ∖ {[h]} = ∅.
Proof.
  intros Hinv Href. apply elem_of_equiv_empty_L. intros x.
  rewrite elem_of_difference, elem_of_singleton. intros [Hx Hne].
  apply Hinv in Hx. congruence.
Qed.

Lemma sampler_inv_none st : sampler_inv st → vadRafRef st = None → frames st = ∅.
Proof.
  intros Hinv Href. apply elem_of_equiv_empty_L. intros x Hx.
  apply Hinv in Hx. congruence.
Qed.

Lemma stopSession_sampler_inv st : sampler_inv st → sampler_inv (stopSession st).
Proof.
  intros Hinv. unfold stopSession. destruct (peerConnection st); [| done]. simpl.
  destruct (vadRafRef st) as [h|] eqn:Href.
  - intros x. unfold cancelAnimationFrame.
    destruct (audioContextRef _); simpl;
      rewrite (sampler_inv_cancel st h Hinv Href); set_solver.
  - intros x. destruct (audioContextRef st); simpl; apply Hinv.
Qed.

Lemma handler_sampler_inv i st : sampler_inv st → sampler_inv (handler i st).
Proof.
  intros Hinv. destruct i; simpl.
  - unfold startSession. destruct (peerConnection st); [| done].
    by apply stopSession_sampler_inv in Hinv.
  - done.
  - unfold handle_message, sampler_inv.
    rewrite talk_update_frames, talk_update_vadRafRef.
    by rewrite tool_block_frames, tool_block_vadRafRef.
  - unfold handle_text, sendTextMessage, sendClientEvent, send. simpl.
    destruct (dataChannel st); [| done].
    intros x. repeat destruct (JS.truthy _); simpl; apply Hinv.
  - unfold handle_timeout. destruct (timeouts st !! h) as [[d cb]|]; [| done].
    destruct cb; simpl; [done |]. unfold greet, send; simpl.
    by destruct (channel_open _ _).
  - unfold setupVoiceActivityDetection, requestAnimationFrame, cancelAnimationFrame.
    simpl. intros x. destruct (vadRafRef st) as [h|] eqn:Href; simpl.
    + rewrite (sampler_inv_cancel st h Hinv Href). set_solver.
    + rewrite (sampler_inv_none st Hinv Href). set_solver.
  - unfold handle_frame. case_decide as Hh; [| done].
    pose proof (Hinv h Hh) as Href.
    unfold tick, requestAnimationFrame. simpl.
    rewrite (sampler_inv_cancel st h Hinv Href).
    intros x. repeat case_match; simpl; set_solver.
  - by apply stopSession_sampler_inv.
Qed.

Lemma step_sampler_inv i st : sampler_inv st → sampler_inv (step st i).
Proof.
  intros Hinv%(handler_sampler_inv i). unfold step, sampler_inv.
  by rewrite commit_frames, commit_vadRafRef.
Qed.

Lemma run_sampler_inv inputs st : sampler_inv st → sampler_inv (run inputs st).
Proof.
  revert st. induction inputs as [|i inputs IH]; intros st Hinv; [done |].
  rewrite run_cons. by apply IH, step_sampler_inv.
Qed.

Lemma initial_sampler_inv : sampler_inv initial.
Proof. intros h. cbn [initial frames]. set_solver. Qed.

(** C4 (as amended): stopping an established session leaves no pending
    record, the interviewer idle, the completed flag unset and no frame
    request pending, whatever was in flight; the call buffers, the
    pending timeouts and [talkingTimeoutRef] are as they were. *)
Theorem teardown (st : App) :
  peerConnection st = true →
  sampler_inv st →
  (pendingCompletion (step st StopClicked) = None ∧
   interviewerState (step st StopClicked) = idle ∧
   isInterviewCompleted (step st StopClicked) = false ∧
   frames (step st StopClicked) = ∅ ∧
   vadRafRef (step st StopClicked) = None) ∧
  (toolCallBuffersRef (step st StopClicked) = toolCallBuffersRef st ∧
   timeouts (step st StopClicked) = timeouts st ∧
   talkingTimeoutRef (step st StopClicked) = talkingTimeoutRef st).
Proof.
  intros Hpc Hinv.
  assert (commit (stopSession st) = stopSession st) as Hc.
  { unfold commit, stopSession. by rewrite Hpc. }
  unfold step; simpl. rewrite Hc. unfold stopSession. rewrite Hpc. simpl.
  destruct (vadRafRef st) as [h|] eqn:Href; unfold cancelAnimationFrame; simpl.
  - pose proof (sampler_inv_cancel st h Hinv Href) as Hempty.
    destruct (audioContextRef st); simpl; by rewrite ?Hempty.
  - pose proof (sampler_inv_none st Hinv Href) as Hempty.
    destruct (audioContextRef st); simpl; by rewrite ?Hempty, ?Href.
Qed.

End Teardown.

(** ** Driver B: hysteresis *)

Section DriverB.

Context `{RT : Runtime}.

Lemma Qle_bool_false (x y : Q) : Qle_bool x y = false ↔ (y < x)%Q.
Proof.
  split.
  - intros Hb. apply Qnot_le_lt. intros Hle.
    apply Qle_bool_iff in Hle. congruence.
  - intros Hlt. destruct (Qle_bool x y) eqn:Hb; [| done].
    apply Qle_bool_iff in Hb. by apply Qlt_not_le in Hlt.
Qed.

Lemma tick_analyserRef r t st : analyserRef (tick r t st) = analyserRef st.
Proof. unfold tick, requestAnimationFrame. by repeat case_match. Qed.

(** A sample at or above the start threshold. *)
Lemma tick_loud r t st :
  analyserRef st = true → (VAD_START_THRESHOLD <= r)%Q →
  isSpeakingRef (tick r t st) = true ∧
  lastAboveThresholdMsRef (tick r t st) = t ∧
  interviewerState (tick r t st) =
    (if isSpeakingRef st then interviewerState st else talking).
Proof.
  intros Ha Hr. apply Qle_bool_iff in Hr.
  unfold tick, requestAnimationFrame. rewrite Ha, Hr. simpl.
  destruct (isSpeakingRef st) eqn:Hs; simpl; by rewrite ?Hs.
Qed.

(** A sample below the start threshold, while speaking: the mark and
    the state change together, and only when the sample is below the
    stop threshold and the double difference of the time stamps exceeds
    the required silence. *)
Lemma tick_below r t st :
  analyserRef st = true → (r < VAD_START_THRESHOLD)%Q →
  isSpeakingRef st = true →
  lastAboveThresholdMsRef (tick r t st) = lastAboveThresholdMsRef st ∧
  ((r < VAD_STOP_THRESHOLD)%Q ∧
   (VAD_REQUIRED_SILENCE_MS < double_sub t (lastAboveThresholdMsRef st))%Q →
   isSpeakingRef (tick r t st) = false ∧ interviewerState (tick r t st) = idle) ∧
  (¬ ((r < VAD_STOP_THRESHOLD)%Q ∧
      (VAD_REQUIRED_SILENCE_MS < double_sub t (lastAboveThresholdMsRef st))%Q) →
   isSpeakingRef (tick r t st) = true ∧
   interviewerState (tick r t st) = interviewerState st).
Proof.
  intros Ha Hr Hs. apply Qle_bool_false in Hr.
  unfold tick, requestAnimationFrame. rewrite Ha, Hr, Hs. simpl.
  destruct (Qle_bool VAD_STOP_THRESHOLD r) eqn:H1; simpl.
  - rewrite Hs. split; [done |]. split; [| done].
    intros [Hlt _]. apply Qle_bool_false in Hlt. congruence.
  - destruct (Qle_bool (double_sub t (lastAboveThresholdMsRef st))
                       VAD_REQUIRED_SILENCE_MS) eqn:H2; simpl.
    + rewrite Hs. split; [done |]. split; [| done].
      intros [_ Hlt]. apply Qle_bool_false in Hlt. congruence.
    + apply Qle_bool_false in H1, H2. split; [done |]. split; [done |].
      intros Hn. by destruct Hn.
Qed.

(** Samples below the start threshold leave the time stamp alone. *)
Lemma tick_lastAbove r t st :
  (r < VAD_START_THRESHOLD)%Q →
  lastAboveThresholdMsRef (tick r t st) = lastAboveThresholdMsRef st.
Proof.
  intros Hr. apply Qle_bool_false in Hr.
  unfold tick, requestAnimationFrame. rewrite Hr. by repeat case_match.
Qed.

Lemma ticks_lastAbove samples st :
  Forall (fun x => (fst x < VAD_START_THRESHOLD)%Q) samples →
  lastAboveThresholdMsRef (ticks samples st) = lastAboveThresholdMsRef st ∧
  analyserRef (ticks samples st) = analyserRef st.
Proof.
  intros Hall. revert st.
  induction Hall as [|x samples Hx _ IH]; intros st; [done |].
  unfold ticks in *. simpl. destruct (IH (tick (fst x) (snd x) st)) as [-> ->].
  by rewrite tick_lastAbove, tick_analyserRef.
Qed.

(** While no sample below the start threshold meets the idle test, the
    driver stays marked speaking and the state is left alone. *)
Lemma ticks_hold t0 samples st :
  analyserRef st = true → isSpeakingRef st = true →
  lastAboveThresholdMsRef st = t0 →
  Forall (fun x => (fst x < VAD_START_THRESHOLD)%Q ∧
                   ¬ ((fst x < VAD_STOP_THRESHOLD)%Q ∧
                      (VAD_REQUIRED_SILENCE_MS < double_sub (snd x) t0)%Q)) samples →
  interviewerState (ticks samples st) = interviewerState st ∧
  isSpeakingRef (ticks samples st) = true ∧
  lastAboveThresholdMsRef (ticks samples st) = t0 ∧
  analyserRef (ticks samples st) = true.
Proof.
  intros Ha Hs Hl Hall. revert st Ha Hs Hl.
  induction Hall as [|x samples [Hx Ht] _ IH]; intros st Ha Hs Hl; [done |].
  destruct (tick_below (fst x) (snd x) st Ha Hx Hs) as (Hl' & _ & Hkeep).
  rewrite Hl in Hkeep. destruct (Hkeep Ht) as [Hs' Hst].
  assert (analyserRef (tick (fst x) (snd x) st) = true) as Ha'
    by (by rewrite tick_analyserRef).
  assert (lastAboveThresholdMsRef (tick (fst x) (snd x) st) = t0) as Hl''
    by congruence.
  destruct (IH (tick (fst x) (snd x) st) Ha' Hs' Hl'') as (H1 & H2 & H3 & H4).
  unfold ticks in *. simpl. by rewrite H1, H2, H3, H4, Hst.
Qed.

(** Rounding a difference of at most 300 gives at most 300: 300 is a
    double. *)
Lemma round_half_even_le (num den bound : Z) :
  (0 < den)%Z → (num <= bound * den)%Z → (round_half_even num den <= bound)%Z.
Proof.
  intros Hden Hle. unfold round_half_even.
  pose proof (Z.div_mod num den ltac:(lia)) as Hdm.
  pose proof (Z.mod_pos_bound num den Hden) as Hm.
  assert (num / den <= bound)%Z as Hq by (apply Z.div_le_upper_bound; lia).
  destruct (2 * (num mod den) <? den)%Z eqn:H1; [done |].
  apply Z.ltb_ge in H1.
  assert (num / den < bound)%Z by nia.
  repeat case_match; lia.
Qed.

Lemma round_half_even_nonneg (num den : Z) :
  (0 <= num)%Z → (0 < den)%Z → (0 <= round_half_even num den)%Z.
Proof.
  intros Hn Hd. unfold round_half_even.
  pose proof (Z.div_pos num den Hn Hd). repeat case_match; lia.
Qed.

Lemma round_magnitude_nonneg (n d : positive) :
  (0 <= round_magnitude (Zpos n) (Zpos d))%Q.
Proof.
  unfold round_magnitude.
  set (q := (Z.max _ _ - 52)%Z). clearbody q.
  destruct (0 <=? q)%Z eqn:Hq.
  - apply Z.leb_le in Hq.
    assert (0 < 2 ^ q)%Z by (by apply Z.pow_pos_nonneg).
    assert (0 <= round_half_even (Z.pos n) (Z.pos d * 2 ^ q))%Z
      by (apply round_half_even_nonneg; lia).
    unfold Qle, inject_Z. cbn [Qnum Qden]. lia.
  - apply Z.leb_gt in Hq.
    assert (0 < 2 ^ (- q))%Z by (apply Z.pow_pos_nonneg; lia).
    assert (0 <= round_half_even (Z.pos n * 2 ^ (- q)) (Z.pos d))%Z
      by (apply round_half_even_nonneg; lia).
    unfold Qle. cbn [Qnum Qden]. lia.
Qed.

Lemma round_magnitude_le_300 (n d : positive) :
  (Zpos n <= 300 * Zpos d)%Z → (round_magnitude (Zpos n) (Zpos d) <= 300)%Q.
Proof.
  intros Hle. unfold round_magnitude.
  assert (binade (Zpos n) (Zpos d) <= 9)%Z as Hb.
  { unfold binade.
    assert (Z.log2 (Zpos n) <= Z.log2 (Zpos d * 2 ^ 9))%Z as H1
      by (apply Z.log2_le_mono; lia).
    rewrite Z.log2_mul_pow2 in H1 by lia.
    repeat case_match; lia. }
  set (q := (Z.max (binade (Zpos n) (Zpos d)) (-1022) - 52)%Z).
  assert (q < 0)%Z as Hq by lia. clearbody q.
  destruct (0 <=? q)%Z eqn:Hq'; [apply Z.leb_le in Hq'; lia |].
  assert (0 < 2 ^ (- q))%Z as Hpow by (apply Z.pow_pos_nonneg; lia).
  assert (round_half_even (Z.pos n * 2 ^ (- q)) (Z.pos d) <= 300 * 2 ^ (- q))%Z
    by (apply round_half_even_le; [lia | nia]).
  unfold Qle. cbn [Qnum Qden]. rewrite Z2Pos.id by done. lia.
Qed.

Lemma round_double_le_300 (x : Q) : (x <= 300)%Q → (round_double x <= 300)%Q.
Proof.
  destruct x as [n d]. unfold Qle at 1, round_double. cbn [Qnum Qden].
  intros Hle. destruct n as [|n|n].
  - done.
  - apply round_magnitude_le_300. lia.
  - pose proof (round_magnitude_nonneg n d) as Hnn.
    set (m := round_magnitude _ _) in *. clearbody m. lra.
Qed.

(** A sample taken at most 300 ms after [t0], the difference taken
    exactly, is within the required silence as the code computes it. *)
Lemma double_sub_within (t t0 : Q) :
  (t - t0 <= 300)%Q → ¬ (VAD_REQUIRED_SILENCE_MS < double_sub t t0)%Q.
Proof.
  intros Hle. apply Qle_not_lt. by apply round_double_le_300.
Qed.

(** C5 (as amended).  A sample at or above the start threshold 0.04
    arrives at time [t0] while the driver is not marked speaking or the
    interviewer is talking already.  Then the interviewer is talking,
    and stays talking over later samples below 0.04 as long as none of
    them is both below the stop threshold 0.02 and more than 300 ms
    after [t0], the difference of the two time stamps being the double
    the code computes.  The next sample turns the interviewer idle when
    it is both, and leaves the interviewer talking when it is not,
    whatever the samples in between were.  Samples at most 300 ms after
    [t0] never meet the test. *)
Theorem vad_hysteresis (st : App) (r0 t0 : Q) (mid : list (Q * Q)) (r t : Q) :
  analyserRef st = true →
  (4 # 100 <= r0)%Q →
  isSpeakingRef st = false ∨ interviewerState st = talking →
  Forall (fun x => (fst x < 4 # 100)%Q ∧
                   ((snd x - t0 <= 300)%Q ∨
                    ¬ ((fst x < 2 # 100)%Q ∧ (300 < double_sub (snd x) t0)%Q))) mid →
  interviewerState (ticks mid (tick r0 t0 st)) = talking ∧
  ((r < 2 # 100)%Q ∧ (300 < double_sub t t0)%Q →
   interviewerState (tick r t (ticks mid (tick r0 t0 st))) = idle) ∧
  (¬ ((r < 2 # 100)%Q ∧ (300 < double_sub t t0)%Q) →
   interviewerState (tick r t (ticks mid (tick r0 t0 st))) = talking).
Proof.
  intros Ha Hr0 Hpre Hall.
  destruct (tick_loud r0 t0 st Ha Hr0) as (Hs1 & Hl1 & Hst1).
  pose proof (tick_analyserRef r0 t0 st) as Ha1. rewrite Ha in Ha1.
  assert (interviewerState (tick r0 t0 st) = talking) as Ht1.
  { rewrite Hst1. destruct Hpre as [-> | ->]; [done | by case_match]. }
  assert (Forall (fun x => (fst x < VAD_START_THRESHOLD)%Q ∧
                           ¬ ((fst x < VAD_STOP_THRESHOLD)%Q ∧
                              (VAD_REQUIRED_SILENCE_MS < double_sub (snd x) t0)%Q)) mid)
    as Hall'.
  { eapply Forall_impl; [exact Hall |]. intros x [Hx [Hin | Hn]]; split; try done.
    intros [_ Hlt]. by apply (double_sub_within (snd x) t0). }
  destruct (ticks_hold t0 mid (tick r0 t0 st) Ha1 Hs1 Hl1 Hall')
    as (Hst2 & Hs2 & Hl2 & Ha2).
  rewrite Ht1 in Hst2.
  set (s2 := ticks mid (tick r0 t0 st)) in *.
  split; [done |].
  destruct (Qlt_le_dec r VAD_START_THRESHOLD) as [Hlt | Hge].
  - destruct (tick_below r t s2 Ha2 Hlt Hs2) as (_ & Hidle & Hkeep).
    rewrite Hl2 in Hidle, Hkeep. split.
    + intros Hc. by destruct (Hidle Hc).
    + intros Hc. destruct (Hkeep Hc) as [_ ->]. done.
  - destruct (tick_loud r t s2 Ha2 Hge) as (_ & _ & Hst3).
    rewrite Hs2, Hst2 in Hst3. split; [| done].
    intros [Hlow _]. unfold VAD_START_THRESHOLD in Hge. lra.
Qed.

End DriverB.

(** ** The countdown display *)

Lemma clock_table : forallb clock_ok (seq 0 (Z.to_nat 6000)) = true.
Proof. vm_compute. reflexivity. Qed.

Lemma clock_ok_range (t : Z) : (0 <= t < 6000)%Z → clock_ok (Z.to_nat t) = true.
Proof.
  intros Ht. pose proof clock_table as Htab.
  rewrite forallb_forall in Htab. apply Htab, in_seq. lia.
Qed.

(** X1: for a time below one hundred minutes the display has exactly
    five characters, with the colon in the middle. *)
Theorem formatTime_shape (t : Z) :
  (0 <= t < 6000)%Z →
  String.length (formatTime t) = 5%nat ∧ String.get 2 (formatTime t) = Some ":"%char.
Proof.
  intros Ht. pose proof (clock_ok_range t Ht) as Hok.
  unfold clock_ok in Hok. rewrite Z2Nat.id in Hok by lia.
  apply andb_true_iff in Hok as [Hok _]. apply andb_true_iff in Hok as [Hlen Hcolon].
  split; [by apply Nat.eqb_eq |].
  destruct (String.get 2 (formatTime t)) as [c|]; [| done].
  by apply Ascii.eqb_eq in Hcolon as ->.
Qed.

(** X2: for a time below one hundred minutes, reading the minutes and
    the seconds of the display back gives the time, so two different
    times never show the same display. *)
Theorem formatTime_read_back (t : Z) :
  (0 <= t < 6000)%Z → read_clock (formatTime t) = Some t.
Proof.
  intros Ht. pose proof (clock_ok_range t Ht) as Hok.
  unfold clock_ok in Hok. rewrite Z2Nat.id in Hok by lia.
  apply andb_true_iff in Hok as [_ Hread].
  destruct (read_clock (formatTime t)) as [t'|]; [| done].
  by apply Z.eqb_eq in Hread as ->.
Qed.

Lemma iter_decrement (n : nat) (v : Z) :
  (0 <= v)%Z → Nat.iter n decrement v = Z.max 0 (v - Z.of_nat n).
Proof.
  intros Hv. induction n as [|n IH]; [simpl; lia |].
  rewrite Nat.iter_succ, IH. unfold decrement.
  destruct (0 <? Z.max 0 (v - Z.of_nat n))%Z eqn:Hpos.
  - apply Z.ltb_lt in Hpos. lia.
  - apply Z.ltb_ge in Hpos. lia.
Qed.

Lemma countdown_intervals (n : nat) (h : positive) (c : Countdown.t) :
  h ∈ Countdown.intervals c →
  Countdown.remainingSeconds
    (Countdown.run (replicate n (Countdown.Interval h)) c) =
    Nat.iter n decrement (Countdown.remainingSeconds c).
Proof.
  intros Hh. revert c Hh. induction n as [|n IH]; intros c Hh; [done |].
  rewrite Nat.iter_succ_r. simpl. unfold Countdown.run in IH.
  assert (Countdown.on_interval h c =
          {| Countdown.remainingSeconds := decrement (Countdown.remainingSeconds c);
             Countdown.timerRef := Countdown.timerRef c;
             Countdown.intervals := Countdown.intervals c;
             Countdown.next_interval := Countdown.next_interval c |}) as ->.
  { unfold Countdown.on_interval. by rewrite decide_True. }
  by rewrite IH.
Qed.

(** X3: [n] seconds after the channel opened the countdown shows
    [600 - n], and zero from the six hundredth second on; it is never
    negative, and its display always has five characters. *)
Theorem countdown_value (c : Countdown.t) (n : nat) :
  Countdown.remainingSeconds
    (Countdown.run
       (Countdown.Open :: replicate n (Countdown.Interval (Countdown.next_interval c))) c) =
    Z.max 0 (600 - Z.of_nat n) ∧
  String.length
    (formatTime
       (Countdown.remainingSeconds
          (Countdown.run
             (Countdown.Open ::
              replicate n (Countdown.Interval (Countdown.next_interval c))) c))) = 5%nat.
Proof.
  assert (Countdown.remainingSeconds
            (Countdown.run
               (Countdown.Open ::
                replicate n (Countdown.Interval (Countdown.next_interval c))) c) =
          Z.max 0 (600 - Z.of_nat n)) as Hval.
  { change (Countdown.run (Countdown.Open :: ?l) c)
      with (Countdown.run l (Countdown.on_open c)).
    rewrite countdown_intervals; [by rewrite iter_decrement |].
    simpl. set_solver. }
  split; [done |]. rewrite Hval. apply formatTime_shape. lia.
Qed.

Lemma step_interval_inv (i : Countdown.input) (c : Countdown.t) :
  interval_inv c → interval_inv (Countdown.step c i).
Proof.
  intros Hinv. destruct i as [|h|pc]; simpl.
  - intros x. unfold Countdown.on_open. simpl.
    rewrite elem_of_union, elem_of_singleton. intros [-> | Hx]; [done |].
    destruct (Countdown.timerRef c) as [h0|] eqn:Href.
    + apply elem_of_difference in Hx as [Hx Hne].
      apply Hinv in Hx. rewrite elem_of_singleton in Hne. congruence.
    + apply Hinv in Hx. congruence.
  - unfold Countdown.on_interval. by case_decide.
  - unfold Countdown.on_stop. destruct pc; [| done].
    destruct (Countdown.timerRef c) as [h0|] eqn:Href; [| done].
    intros x. simpl. intros [Hx Hne]%elem_of_difference.
    apply Hinv in Hx. rewrite elem_of_singleton in Hne. congruence.
Qed.

Lemma run_interval_inv (inputs : list Countdown.input) (c : Countdown.t) :
  interval_inv c → interval_inv (Countdown.run inputs c).
Proof.
  revert c. induction inputs as [|i inputs IH]; intros c Hinv; [done |].
  simpl. by apply IH, step_interval_inv.
Qed.

(** X4: whatever the order of openings, interval firings and stops, at
    most one countdown interval is running; a stop that reaches the end
    of [stopSession] leaves none running and the remaining time as it
    was. *)
Theorem countdown_single_interval (inputs : list Countdown.input) :
  (size (Countdown.intervals (Countdown.run inputs Countdown.initial)) <= 1)%nat ∧
  Countdown.intervals
    (Countdown.on_stop true (Countdown.run inputs Countdown.initial)) = ∅ ∧
  Countdown.remainingSeconds
    (Countdown.on_stop true (Countdown.run inputs Countdown.initial)) =
    Countdown.remainingSeconds (Countdown.run inputs Countdown.initial).
Proof.
  assert (interval_inv (Countdown.run inputs Countdown.initial)) as Hinv.
  { apply run_interval_inv. intros h. simpl. set_solver. }
  set (c := Countdown.run inputs Countdown.initial) in *.
  split; [| split].
  - destruct (Countdown.timerRef c) as [h|] eqn:Href.
    + assert (Countdown.intervals c ⊆ {[h]}) as Hsub.
      { intros x Hx. apply Hinv in Hx. set_solver. }
      apply subseteq_size in Hsub. by rewrite size_singleton in Hsub.
    + assert (Countdown.intervals c = ∅) as ->.
      { apply elem_of_equiv_empty_L. intros x Hx. apply Hinv in Hx. congruence. }
      rewrite size_empty. lia.
  - unfold Countdown.on_stop.
    destruct (Countdown.timerRef c) as [h|] eqn:Href; simpl.
    + apply elem_of_equiv_empty_L. intros x [Hx Hne]%elem_of_difference.
      apply Hinv in Hx. rewrite elem_of_singleton in Hne. congruence.
    + apply elem_of_equiv_empty_L. intros x Hx. apply Hinv in Hx. congruence.
  - unfold Countdown.on_stop. by destruct (Countdown.timerRef c).
Qed.

(** ** The frame buffer *)

Section FrameBuffer.

Lemma sample_square_bounds (d : Z) :
  is_byte d → (0 <= sample d * sample d)%Q ∧ (sample d * sample d <= 1)%Q.
Proof.
  intros [H0 H255]. unfold sample, Qle, Qmult, Qdiv, Qinv. simpl.
  change (Z.pos (1 * 128 * (1 * 128))) with 16384%Z.
  assert (-128 <= d - 128 <= 127)%Z as Hx by lia.
  clear H0 H255. set (x := (d - 128)%Z) in *. clearbody x. split; nia.
Qed.

Lemma sample_square_zero (d : Z) : (sample d * sample d == 0)%Q ↔ d = 128%Z.
Proof.
  unfold sample, Qeq, Qmult, Qdiv, Qinv. simpl.
  change (Z.pos (1 * 128 * (1 * 128))) with 16384%Z. split; intros H; nia.
Qed.

Lemma fold_sumSquares (data : list Z) (acc : Q) :
  (fold_left (fun a d => a + sample d * sample d) data acc == acc + sumSquares data)%Q.
Proof.
  revert acc. induction data as [|d data IH]; intros acc.
  - unfold sumSquares. simpl. ring.
  - unfold sumSquares. simpl. rewrite (IH (acc + _)%Q), (IH (0 + _)%Q). ring.
Qed.

Lemma sumSquares_cons (d : Z) (data : list Z) :
  (sumSquares (d :: data) == sample d * sample d + sumSquares data)%Q.
Proof.
  unfold sumSquares at 1. simpl. rewrite fold_sumSquares. ring.
Qed.

Lemma sumSquares_bounds (data : list Z) :
  Forall is_byte data →
  (0 <= sumSquares data)%Q ∧ (sumSquares data <= inject_Z (Z.of_nat (length data)))%Q.
Proof.
  induction 1 as [|d data Hd _ [IH0 IH1]].
  - unfold sumSquares. simpl. split; unfold Qle; simpl; lia.
  - rewrite sumSquares_cons.
    destruct (sample_square_bounds d Hd) as [H0 H1].
    change (length (d :: data)) with (S (length data)).
    rewrite Nat2Z.inj_succ, <- Z.add_1_r, inject_Z_plus.
    change (inject_Z 1) with 1%Q.
    set (q := (sample d * sample d)%Q) in *. clearbody q.
    set (n := inject_Z (Z.of_nat (length data))) in *. clearbody n.
    split; lra.
Qed.

Lemma sumSquares_zero (data : list Z) :
  Forall is_byte data →
  (sumSquares data == 0)%Q ↔ Forall (fun d => d = 128%Z) data.
Proof.
  induction 1 as [|d data Hd Hall IH].
  - split; [constructor | reflexivity].
  - rewrite sumSquares_cons.
    destruct (sample_square_bounds d Hd) as [H0 _].
    destruct (sumSquares_bounds data Hall) as [H1 _].
    rewrite Forall_cons, <- IH, <- sample_square_zero.
    set (q := (sample d * sample d)%Q) in *. clearbody q.
    split; [intros Hsum; split; lra | intros [Hq Hs]; lra].
Qed.

(** X5: on a non-empty buffer of bytes the mean of the squared samples,
    whose square root is the RMS, lies between 0 and 1, and it is 0
    exactly when every byte is 128, the level of silence. *)
Theorem meanSquare_range (data : list Z) :
  data ≠ [] → Forall is_byte data →
  ((0 <= meanSquare data)%Q ∧ (meanSquare data <= 1)%Q) ∧
  ((meanSquare data == 0)%Q ↔ Forall (fun d => d = 128%Z) data).
Proof.
  intros Hne Hall.
  destruct (sumSquares_bounds data Hall) as [H0 H1].
  assert (0 < inject_Z (Z.of_nat (length data)))%Q as Hlen.
  { change 0%Q with (inject_Z 0). rewrite <- Zlt_Qlt. destruct data; [done | simpl; lia]. }
  unfold meanSquare. split; [split |].
  - apply Qle_shift_div_l; [done |]. lra.
  - apply Qle_shift_div_r; [done |]. lra.
  - rewrite <- (sumSquares_zero data Hall). split; intros Hz.
    + apply (Qmult_inj_r _ _ (/ inject_Z (Z.of_nat (length data)))).
      * intros Hinv. apply Qinv_lt_0_compat in Hlen. lra.
      * unfold Qdiv in Hz. rewrite Hz. ring.
    + unfold Qdiv. rewrite Hz. ring.
Qed.
End FrameBuffer.

(** ** The store of call buffers *)

Section Store.

Context `{RT : Runtime}.

Lemma sendClientEvent_toolCallBuffersRef dc m st :
  toolCallBuffersRef (sendClientEvent dc m st) = toolCallBuffersRef st.
Proof.
  unfold sendClientEvent, send. destruct dc; [| done]. by destruct (JS.truthy _).
Qed.

Lemma stopSession_toolCallBuffersRef st :
  toolCallBuffersRef (stopSession st) = toolCallBuffersRef st.
Proof.
  unfold stopSession, cancelAnimationFrame. by repeat case_match.
Qed.

(** Only the message listener writes the store. *)
Lemma handler_toolCallBuffersRef i st :
  (∀ e, i ≠ ChannelMessage e) →
  toolCallBuffersRef (handler i st) = toolCallBuffersRef st.
Proof.
  intros Hi. destruct i; simpl.
  - unfold startSession. simpl. case_match; [apply stopSession_toolCallBuffersRef | done].
  - done.
  - by destruct (Hi e).
  - unfold handle_text, sendTextMessage. by rewrite !sendClientEvent_toolCallBuffersRef.
  - unfold handle_timeout, run_callback, greet, send. by repeat case_match.
  - unfold setupVoiceActivityDetection, requestAnimationFrame, cancelAnimationFrame.
    by repeat case_match.
  - unfold handle_frame, tick, requestAnimationFrame. by repeat case_match.
  - apply stopSession_toolCallBuffersRef.
Qed.

Lemma route_toolCallBuffersRef inv st st2 :
  route inv st = Some st2 → toolCallBuffersRef st2 = toolCallBuffersRef st.
Proof.
  unfold route. destruct (JS.is_str _ _); [| by intros [= <-]].
  destruct (JS.get_prop _ "summary"); [| done].
  destruct (JS.get_prop _ "reason"); [| done].
  intros Heq. injection Heq as <-. reflexivity.
Qed.

(** The three shapes of the store after the tool block. *)
Lemma tool_block_store e st :
  toolCallBuffersRef (fst (tool_block e st)) = toolCallBuffersRef st ∨
  toolCallBuffersRef (fst (tool_block e st)) = toolCallBuffersRef (accumulate e st) ∨
  toolCallBuffersRef (fst (tool_block e st)) =
    delete (buffer_key (callId_of e)) (toolCallBuffersRef (accumulate e st)).
Proof.
  unfold tool_block. repeat case_match; simpl; auto.
  right. right. f_equal. by eapply route_toolCallBuffersRef.
Qed.

Lemma accumulate_lookup_ne e st k :
  buffer_key (callId_of e) ≠ k →
  toolCallBuffersRef (accumulate e st) !! k = toolCallBuffersRef st !! k.
Proof.
  intros Hk. unfold accumulate, store_set. repeat case_match; try done.
  simpl. by rewrite lookup_insert_ne.
Qed.

Lemma accumulate_appends e st k :
  ∃ suffix, buffer_text (accumulate e st) k = buffer_text st k +:+ suffix.
Proof.
  destruct (decide (buffer_key (callId_of e) = k)) as [<- | Hne].
  - unfold accumulate, store_set, buffer_text.
    destruct (JS.truthy (delta_of e)); [| exists ""; by rewrite str_app_nil_r].
    case_match; [exists ""; by rewrite str_app_nil_r |].
    simpl. rewrite lookup_insert_eq. simpl. unfold store_get.
    destruct (toolCallBuffersRef st !! _) as [s|]; simpl; [| by eexists].
    exists (JS.to_string (delta_of e)). f_equal.
    unfold JS.or. destruct (JS.truthy (VStr s)) eqn:Hs; [done |].
    apply truthy_str_false in Hs. by subst.
  - exists "". unfold buffer_text. rewrite accumulate_lookup_ne by done.
    by rewrite str_app_nil_r.
Qed.

Lemma step_toolCallBuffersRef_message e st :
  toolCallBuffersRef (step st (ChannelMessage e)) =
    toolCallBuffersRef (fst (tool_block e st)).
Proof.
  unfold step. simpl. unfold handle_message.
  by rewrite commit_toolCallBuffersRef, talk_update_toolCallBuffersRef.
Qed.

Lemma step_toolCallBuffersRef_other i st :
  (∀ e, i ≠ ChannelMessage e) →
  toolCallBuffersRef (step st i) = toolCallBuffersRef st.
Proof.
  intros Hi. unfold step. by rewrite commit_toolCallBuffersRef, handler_toolCallBuffersRef.
Qed.

Lemma run_buffers_other (k : string) (inputs : list input) (st : App) :
  Forall (fun i => ∀ e, i = ChannelMessage e → buffer_key (callId_of e) ≠ k) inputs →
  toolCallBuffersRef (run inputs st) !! k = toolCallBuffersRef st !! k.
Proof.
  intros Hall. revert st.
  induction Hall as [|i inputs Hi _ IH]; intros st; [done |].
  rewrite run_cons, IH.
  destruct i; try (by rewrite step_toolCallBuffersRef_other).
  rewrite step_toolCallBuffersRef_message.
  specialize (Hi e eq_refl).
  destruct (tool_block_store e st) as [-> | [-> | ->]]; [done | |].
  - by apply accumulate_lookup_ne.
  - rewrite lookup_delete_ne by done. by apply accumulate_lookup_ne.
Qed.

(** X6: the buffer of a call is read and written only by the events
    that resolve to its key: over any run whose messages all resolve to
    other keys, whatever else happens, the buffer is as it was. *)
Theorem buffers_isolated (k : string) (inputs : list input) (st : App) :
  Forall (fun i => ∀ e, i = ChannelMessage e → buffer_key (callId_of e) ≠ k) inputs →
  toolCallBuffersRef (run inputs st) !! k = toolCallBuffersRef st !! k.
Proof. apply run_buffers_other. Qed.

(** X7: no callback rewrites a buffer: after any callback a buffer is
    either gone or holds its earlier text followed by what was
    appended. *)
Theorem buffers_append_only (i : input) (st : App) (k : string) :
  toolCallBuffersRef (step st i) !! k = None ∨
  ∃ suffix, buffer_text (step st i) k = buffer_text st k +:+ suffix.
Proof.
  assert (∀ st', toolCallBuffersRef st' = toolCallBuffersRef st →
                 ∃ suffix, buffer_text st' k = buffer_text st k +:+ suffix) as Hsame.
  { intros st' Heq. exists "". unfold buffer_text. by rewrite Heq, str_app_nil_r. }
  destruct i; try (right; apply Hsame; by rewrite step_toolCallBuffersRef_other).
  pose proof (step_toolCallBuffersRef_message e st) as Hstep.
  destruct (tool_block_store e st) as [Heq | [Heq | Heq]]; rewrite Heq in Hstep.
  - right. by apply Hsame.
  - right. destruct (accumulate_appends e st k) as [suffix Hs].
    exists suffix. unfold buffer_text in *. by rewrite Hstep.
  - destruct (decide (buffer_key (callId_of e) = k)) as [<- | Hne].
    + left. rewrite Hstep. apply lookup_delete_eq.
    + right. destruct (accumulate_appends e st k) as [suffix Hs].
      exists suffix. unfold buffer_text in *.
      by rewrite Hstep, lookup_delete_ne.
Qed.

End Store.
(** ** Completion and routing *)

Section Completion.

Context `{RT : Runtime}.

Lemma tool_block_dropped e st :
  is_tool_event e = false ∨ identified e = false → fst (tool_block e st) = st.
Proof.
  unfold is_tool_event, identified, tool_block.
  destruct (looksLikeToolEvent (event_type e)) as [[]|]; try done.
  intros [? | ->]; done.
Qed.

(** X8: an event that is not tool-shaped, or that resolves no call
    identifier or no name, creates no partial state: the listener leaves
    the buffers, the completion fields, the pending record and the
    outbound channel as they were. *)
Theorem unidentified_event_dropped (e : event) (st : App) :
  is_tool_event e = false ∨ identified e = false →
  toolCallBuffersRef (handle_message e st) = toolCallBuffersRef st ∧
  pendingCompletion (handle_message e st) = pendingCompletion st ∧
  completionSummary (handle_message e st) = completionSummary st ∧
  completionReason (handle_message e st) = completionReason st ∧
  sent (handle_message e st) = sent st.
Proof.
  intros Hdrop. unfold handle_message.
  rewrite talk_update_toolCallBuffersRef, talk_update_pendingCompletion,
    talk_update_completionSummary, talk_update_completionReason, talk_update_sent.
  by rewrite tool_block_dropped.
Qed.

(** X9: within a session the completion screen never goes away by
    itself: once the completed flag is set it stays set over any run
    without teardown or restart. *)
Theorem completion_stays_visible (inputs : list input) (st : App) :
  isInterviewCompleted st = true →
  Forall (fun i => ends_session i = false) inputs →
  isInterviewCompleted (run inputs st) = true.
Proof.
  intros Hc Hall. revert st Hc.
  induction Hall as [|i inputs Hi _ IH]; intros st Hc; [done |].
  rewrite run_cons. apply IH.
  by rewrite step_isInterviewCompleted, Hc.
Qed.

(** The event types that end a talk name no tool. *)
Lemma tool_type_not_talk_end t :
  JS.includes t "function_call" || JS.includes t "tool_call" = true →
  isTalkEnd t = false.
Proof.
  intros Htool. destruct (isTalkEnd t) eqn:He; [| done].
  unfold isTalkEnd in He. rewrite !orb_true_iff, !String.eqb_eq in He.
  destruct He as [[-> | ->] | ->]; vm_compute in Htool; done.
Qed.

Lemma tool_event_type e :
  is_tool_event e = true → is_terminal e = true →
  ∃ t, event_type e = VStr t ∧ isTalkEnd t = false.
Proof.
  unfold is_tool_event, is_terminal, looksLikeToolEvent, type_includes, isFinal.
  destruct (event_type e) as [| | | |t| |]; try done.
  intros Htool _. exists t. split; [done |]. apply tool_type_not_talk_end.
  destruct (JS.includes t "function_call"); [done |].
  by destruct (JS.includes t "tool_call").
Qed.

Lemma talk_update_interviewerState e t st :
  event_type e = VStr t → isTalkEnd t = false →
  interviewerState (talk_update e st) =
    (if isTalkDelta t then talking else interviewerState st).
Proof.
  intros Hty He. unfold talk_update. rewrite Hty, He.
  destruct (isTalkDelta t); [| done].
  unfold setTimeout, clear_talking_timeout, clearTimeout.
  destruct (talkingTimeoutRef _); simpl; apply talking_or_talking.
Qed.

(** X10: the callback that finalizes a [complete_interview] invocation
    shows the completion at once exactly when the interviewer is idle
    and the event is not itself a talk-start event; otherwise the flag
    is left as it was. *)
Theorem completion_shown_at_once (e : event) (t : string) (st : App)
    (inv : ToolInvocation) (s r : value) :
  produced_invocation e st = Some inv →
  JS.is_str (name inv) "complete_interview" = true →
  JS.get_prop (arguments inv) "summary" = Some s →
  JS.get_prop (arguments inv) "reason" = Some r →
  event_type e = VStr t →
  isInterviewCompleted (step st (ChannelMessage e)) =
    isInterviewCompleted st ||
    (PresentationState_eqb (interviewerState st) idle && negb (isTalkDelta t)).
Proof.
  intros Hinv Hname Hs Hr Hty.
  destruct (produced_invocation_guards e st inv Hinv) as (Htool & _ & Hterm & _).
  destruct (tool_event_type e Htool Hterm) as (t' & Hty' & He).
  assert (t' = t) as -> by congruence.
  unfold step; simpl. rewrite commit_isInterviewCompleted.
  unfold handle_message at 1. rewrite talk_update_isInterviewCompleted,
    tool_block_isInterviewCompleted. f_equal.
  unfold ready, handle_message.
  rewrite talk_update_pendingCompletion, (talk_update_interviewerState e t) by done.
  rewrite tool_block_interviewerState.
  rewrite (tool_block_complete e st inv s r) by done. simpl.
  by destruct (isTalkDelta t), (interviewerState st).
Qed.

(** X11: a text message from the user forces the interviewer idle, so a
    pending completion is shown at once, whatever the interviewer state
    was. *)
Theorem user_text_promotes (message : string) (st : App) :
  is_Some (pendingCompletion st) →
  isInterviewCompleted (step st (TextSent message)) = true ∧
  pendingCompletion (step st (TextSent message)) = None ∧
  interviewerState (step st (TextSent message)) = idle.
Proof.
  intros Hp.
  assert (pendingCompletion (handle_text message st) = pendingCompletion st ∧
          interviewerState (handle_text message st) = idle) as [Hp' Hs'].
  { unfold handle_text, sendTextMessage, sendClientEvent, send. simpl.
    destruct (dataChannel st); [| done]. by repeat destruct (JS.truthy _). }
  unfold step; simpl. unfold commit. rewrite Hp', Hs'.
  rewrite bool_decide_eq_true_2 by done. done.
Qed.

(** X20: a terminal event for another tool name is finalized and its
    buffer removed, and nothing is routed: the completion fields, the
    pending record and the outbound channel are as they were. *)
Theorem other_tool_cleaned_up (e : event) (st : App) (inv : ToolInvocation) :
  produced_invocation e st = Some inv →
  JS.is_str (name inv) "complete_interview" = false →
  toolCallBuffersRef (handle_message e st) !! buffer_key (callId_of e) = None ∧
  pendingCompletion (handle_message e st) = pendingCompletion st ∧
  completionSummary (handle_message e st) = completionSummary st ∧
  completionReason (handle_message e st) = completionReason st ∧
  sent (handle_message e st) = sent st.
Proof.
  intros Hinv Hname. unfold handle_message.
  rewrite talk_update_toolCallBuffersRef, talk_update_pendingCompletion,
    talk_update_completionSummary, talk_update_completionReason, talk_update_sent.
  rewrite (tool_block_other e st inv) by done. simpl.
  rewrite lookup_delete_eq. unfold accumulate, store_set. by repeat case_match.
Qed.

(** X21: a call that streams its fragments and ends with a terminal
    event whose hand-off does not throw leaves the store exactly as it
    found it. *)
Theorem completed_call_leaves_store (k : string) (frags : list event) (t : event)
    (st : App) :
  toolCallBuffersRef st !! k = None →
  Forall (fragment_event k) frags →
  terminal_event k t →
  snd (tool_block t (run (ChannelMessage <$> frags) st)) = Normal →
  toolCallBuffersRef (run (ChannelMessage <$> (frags ++ [t])%list) st) =
    toolCallBuffersRef st.
Proof.
  intros Hnone Hfrags (Htool & Hid & Hk & Hterm & _) Hnormal.
  rewrite fmap_app. change (ChannelMessage <$> [t]) with [ChannelMessage t].
  rewrite run_snoc, step_toolCallBuffersRef_message.
  set (st1 := run (ChannelMessage <$> frags) st) in *.
  assert (produced_invocation t st1 = Some (finalize t (accumulate t st1))) as Hinv.
  { unfold produced_invocation. by rewrite Htool, Hid, Hterm. }
  rewrite (tool_block_terminal t st1 _ Hinv) in Hnormal |- *.
  destruct (route _ _) as [st2|] eqn:Hroute; [| done]. simpl.
  apply route_toolCallBuffersRef in Hroute. rewrite Hroute, Hk.
  apply map_eq. intros k'.
  destruct (decide (k = k')) as [<- | Hne].
  - by rewrite lookup_delete_eq.
  - rewrite lookup_delete_ne by done.
    rewrite accumulate_lookup_ne by congruence.
    apply run_buffers_other. apply Forall_fmap.
    eapply Forall_impl; [exact Hfrags |].
    intros e (_ & _ & Hke & _) e' [= <-]. congruence.
Qed.

End Completion.
(** ** Session lifecycle *)

Section Lifecycle.

Context `{RT : Runtime}.

(** X12: in every state the application can reach, at most one
    animation-frame request of the sampler is pending. *)
Theorem one_frame_pending (inputs : list input) :
  (size (frames (run inputs initial)) <= 1)%nat.
Proof.
  pose proof (run_sampler_inv inputs initial initial_sampler_inv) as Hinv.
  set (st := run inputs initial) in *.
  destruct (vadRafRef st) as [h|] eqn:Href.
  - assert (frames st ⊆ {[h]}) as Hsub.
    { intros x Hx. apply Hinv in Hx. set_solver. }
    apply subseteq_size in Hsub. by rewrite size_singleton in Hsub.
  - rewrite (sampler_inv_none st Hinv Href), size_empty. lia.
Qed.

(** X13: in every state the application can reach, at most one fallback
    timeout is pending: two pending fallback timeouts are the same. *)
Theorem one_fallback_pending (inputs : list input) (h1 h2 : positive) (d1 d2 : Z) :
  timeouts (run inputs initial) !! h1 = Some (d1, ToIdle) →
  timeouts (run inputs initial) !! h2 = Some (d2, ToIdle) →
  h1 = h2.
Proof.
  pose proof (run_fallback_inv inputs initial initial_fallback_inv) as Hinv.
  intros H1%Hinv H2%Hinv. congruence.
Qed.

Lemma stopSession_peerConnection st : peerConnection (stopSession st) = false.
Proof.
  unfold stopSession. destruct (peerConnection st) eqn:Hpc; [| done].
  simpl. by repeat case_match.
Qed.

(** X14: a second stop changes nothing: [stopSession] is idempotent,
    the second call ending at the missing peer connection. *)
Theorem stopSession_idempotent (st : App) :
  stopSession (stopSession st) = stopSession st.
Proof.
  unfold stopSession at 1. by rewrite stopSession_peerConnection.
Qed.

Lemma stopped_frames st :
  peerConnection st = true → sampler_inv st →
  frames (step st StopClicked) = ∅ ∧ commit (step st StopClicked) = step st StopClicked.
Proof.
  intros Hpc Hinv.
  assert (commit (stopSession st) = stopSession st) as Hc.
  { unfold commit, stopSession. by rewrite Hpc. }
  unfold step; simpl. rewrite !Hc. split; [| done].
  unfold stopSession. rewrite Hpc. simpl.
  destruct (vadRafRef st) as [h|] eqn:Href; unfold cancelAnimationFrame; simpl.
  - destruct (audioContextRef st); simpl; by apply sampler_inv_cancel.
  - destruct (audioContextRef st); simpl; by apply sampler_inv_none.
Qed.

(** X15: after a stop of an established session the sampler never runs
    again: whatever frames the browser delivers, the state does not
    change. *)
Theorem no_frames_after_stop (st : App) (deliveries : list (positive * Q * Q)) :
  peerConnection st = true → sampler_inv st →
  run ((fun x => AnimationFrame x.1.1 x.1.2 x.2) <$> deliveries) (step st StopClicked) =
    step st StopClicked.
Proof.
  intros Hpc Hinv. destruct (stopped_frames st Hpc Hinv) as [Hempty Hc].
  induction deliveries as [|x deliveries IH]; [done |].
  rewrite fmap_cons, run_cons.
  assert (step (step st StopClicked) (AnimationFrame x.1.1 x.1.2 x.2) =
          step st StopClicked) as ->; [| done].
  unfold step at 1. simpl. unfold handle_frame.
  rewrite decide_False; [done |]. rewrite Hempty. set_solver.
Qed.

(** X16: a stop cancels no timeout: one that was pending is still
    pending, and when it fires after the stop the greeting sets the
    interviewer talking again and the fallback sets it idle; nothing is
    sent. *)
Theorem timeouts_survive_stop (st : App) (h : positive) (d : Z) (cb : timer_callback) :
  peerConnection st = true →
  timeouts st !! h = Some (d, cb) →
  timeouts (step st StopClicked) !! h = Some (d, cb) ∧
  interviewerState (run [StopClicked; TimeoutFired h] st) =
    match cb with ToIdle => idle | Greeting _ => talking end ∧
  sent (run [StopClicked; TimeoutFired h] st) = sent st.
Proof.
  intros Hpc Hh.
  assert (commit (stopSession st) = stopSession st) as Hc.
  { unfold commit, stopSession. by rewrite Hpc. }
  assert (timeouts (stopSession st) = timeouts st ∧ sent (stopSession st) = sent st ∧
          dataChannel (stopSession st) = false) as (Hto & Hsent & Hdc).
  { unfold stopSession, cancelAnimationFrame. rewrite Hpc. simpl.
    by repeat case_match. }
  assert (step st StopClicked = stopSession st) as Hstep by (unfold step; simpl; done).
  split; [by rewrite Hstep, Hto |].
  unfold run. simpl fold_left. rewrite Hstep.
  unfold step. simpl. rewrite commit_interviewerState, commit_sent.
  unfold handle_timeout. rewrite Hto, Hh.
  destruct cb; simpl; [done |].
  unfold greet, channel_open. simpl. by rewrite Hdc.
Qed.

Lemma commit_channel st :
  dataChannel (commit st) = dataChannel st ∧ channel_id (commit st) = channel_id st.
Proof. unfold commit. by case_match. Qed.

(** X19: when the channel opens the interviewer shows the entry state,
    and the greeting timeout the listener arms, when it fires, sets the
    interviewer talking and sends the greeting request, once, on the
    channel that opened: after a stop and a new session start the
    greeting of the old channel sends nothing. *)
Theorem greeting_after_open (st : App) :
  dataChannel st = true →
  interviewerState (step st ChannelOpen) = entry ∧
  timeouts (step st ChannelOpen) !! next_handle st =
    Some (400%Z, Greeting (channel_id st)) ∧
  interviewerState (run [ChannelOpen; TimeoutFired (next_handle st)] st) = talking ∧
  sent (run [ChannelOpen; TimeoutFired (next_handle st)] st) =
    (sent st ++ [JSON.stringify greeting_event])%list ∧
  (peerConnection st = true →
   sent (run [ChannelOpen; StopClicked; SessionStarted; TimeoutFired (next_handle st)] st) =
     sent st).
Proof.
  intros Hdc.
  assert (commit (handle_open st) = handle_open st) as Hc.
  { unfold commit, handle_open, setTimeout. simpl. by rewrite andb_false_r. }
  assert (step st ChannelOpen = handle_open st) as Hstep by (unfold step; simpl; done).
  assert (timeouts (handle_open st) !! next_handle st =
          Some (400%Z, Greeting (channel_id st))) as Hh.
  { unfold handle_open, setTimeout. simpl. apply lookup_insert_eq. }
  rewrite Hstep. split; [done |]. split; [done |].
  split; [| split].
  - unfold run. simpl fold_left. rewrite Hstep.
    unfold step. simpl. rewrite commit_interviewerState.
    unfold handle_timeout. rewrite Hh. simpl. unfold greet. by case_match.
  - unfold run. simpl fold_left. rewrite Hstep.
    unfold step. simpl. rewrite commit_sent.
    unfold handle_timeout. rewrite Hh.
    simpl. unfold greet, channel_open. simpl. by rewrite Hdc, Nat.eqb_refl.
  - intros Hpc. unfold run. simpl fold_left. rewrite Hstep.
    set (s1 := handle_open st).
    assert (peerConnection s1 = true) as Hpc1 by exact Hpc.
    assert (commit (stopSession s1) = stopSession s1) as Hc2.
    { unfold commit, stopSession. by rewrite Hpc1. }
    assert (step s1 StopClicked = stopSession s1) as -> by (unfold step; simpl; done).
    set (s2 := stopSession s1).
    assert (timeouts s2 = timeouts s1 ∧ sent s2 = sent st ∧
            channel_id s2 = channel_id st ∧ peerConnection s2 = false) as (Ht2 & Hs2 & Hi2 & Hp2).
    { unfold s2, stopSession, cancelAnimationFrame. rewrite Hpc1. simpl.
      by repeat case_match. }
    set (s3 := step s2 SessionStarted).
    assert (timeouts s3 = timeouts s1 ∧ sent s3 = sent st ∧
            channel_id s3 = S (channel_id st)) as (Ht3 & Hs3 & Hi3).
    { unfold s3, step. destruct (commit_channel (handler SessionStarted s2)) as [_ ->].
      rewrite commit_timeouts, commit_sent. simpl.
      unfold startSession. rewrite Hp2. simpl. by rewrite Ht2, Hs2, Hi2. }
    unfold step. rewrite commit_sent. simpl.
    unfold handle_timeout. rewrite Ht3. unfold s1. rewrite Hh. simpl.
    unfold greet, channel_open. simpl. rewrite Hi3.
    assert ((S (channel_id st) =? channel_id st)%nat = false) as ->
      by (apply Nat.eqb_neq; lia).
    by rewrite andb_false_r.
Qed.

End Lifecycle.

(** ** The two drivers together *)

Section Race.

Context `{RT : Runtime}.

(** X17: a sample between the two thresholds changes nothing: neither
    the speaking mark, nor the time stamp, nor the interviewer state. *)
Theorem vad_dead_band (r t : Q) (st : App) :
  analyserRef st = true →
  (2 # 100 <= r)%Q → (r < 4 # 100)%Q →
  isSpeakingRef (tick r t st) = isSpeakingRef st ∧
  lastAboveThresholdMsRef (tick r t st) = lastAboveThresholdMsRef st ∧
  interviewerState (tick r t st) = interviewerState st.
Proof.
  intros Ha Hlow Hhigh.
  apply Qle_bool_iff in Hlow. apply Qle_bool_false in Hhigh.
  unfold tick, requestAnimationFrame, VAD_START_THRESHOLD, VAD_STOP_THRESHOLD.
  rewrite Ha, Hlow, Hhigh. simpl. by rewrite andb_false_r.
Qed.

Lemma handle_message_vad e st :
  isSpeakingRef (handle_message e st) = isSpeakingRef st ∧
  analyserRef (handle_message e st) = analyserRef st.
Proof.
  unfold handle_message.
  assert (isSpeakingRef (fst (tool_block e st)) = isSpeakingRef st ∧
          analyserRef (fst (tool_block e st)) = analyserRef st) as [<- <-].
  { unfold tool_block, route, cleanup, accumulate, store_set, sendClientEvent, send.
    repeat case_match; simplify_eq; done. }
  unfold talk_update, setTimeout, clear_talking_timeout, clearTimeout.
  repeat case_match; simplify_eq; done.
Qed.

Lemma ticks_loud_keep samples st :
  analyserRef st = true → isSpeakingRef st = true →
  Forall (fun x => (4 # 100 <= fst x)%Q) samples →
  interviewerState (ticks samples st) = interviewerState st.
Proof.
  intros Ha Hs Hall. revert st Ha Hs.
  induction Hall as [|x samples Hx _ IH]; intros st Ha Hs; [done |].
  destruct (tick_loud (fst x) (snd x) st Ha Hx) as (Hs' & _ & Hst).
  rewrite Hs in Hst. unfold ticks in *. simpl.
  rewrite IH; [done | by rewrite tick_analyserRef | done].
Qed.

(** X18: the two drivers do not arbitrate: when a talk-end event
    arrives while the sampler has the interviewer marked speaking, the
    state is idle and stays idle over all following frames at or above
    the start threshold, however loud the audio. *)
Theorem talk_end_outlasts_loud_frames (e : event) (t : string) (st : App)
    (samples : list (Q * Q)) :
  event_type e = VStr t → isTalkEnd t = true →
  analyserRef st = true → isSpeakingRef st = true →
  Forall (fun x => (4 # 100 <= fst x)%Q) samples →
  interviewerState (ticks samples (step st (ChannelMessage e))) = idle.
Proof.
  intros Hty He Ha Hs Hall.
  destruct (handle_message_vad e st) as [Hs' Ha'].
  destruct (handle_message_talk_end e t st Hty He) as [Hidle _].
  assert (isSpeakingRef (step st (ChannelMessage e)) = true ∧
          analyserRef (step st (ChannelMessage e)) = true ∧
          interviewerState (step st (ChannelMessage e)) = idle) as (H1 & H2 & H3).
  { unfold step; simpl. rewrite commit_interviewerState.
    unfold commit. case_match; simpl; rewrite Hs', Ha'; done. }
  by rewrite ticks_loud_keep.
Qed.

End Race.

(** ** The properties on concrete inputs *)

Module Examples.

Import Scenario.

#[local] Existing Instance reference_runtime.

Lemma live_fallback_inv : fallback_inv live.
Proof. apply run_fallback_inv, initial_fallback_inv. Qed.

Lemma live_sampler_inv : sampler_inv live.
Proof. apply run_sampler_inv, initial_sampler_inv. Qed.

Lemma named_fragments_are_fragments : Forall (fragment_event "c1") named_fragments.
Proof.
  repeat constructor; try reflexivity; by eexists.
Defined.

Lemma terminal_is_terminal : terminal_event "c1" terminal.
Proof.
  repeat split; try reflexivity. by right.
Defined.

(** Two named fragments and a terminal event give the record of the
    concatenated text, and the callback displays its summary and
    reason. *)
Lemma buffer_reconstruction_witness :
  produced_invocation terminal (run (ChannelMessage <$> named_fragments) initial) =
    Some {| name := VStr "complete_interview"; call_id := VStr "c1";
            arguments := VObj [("summary", VStr "Good job");
                               ("reason", VStr "finished_all_questions")] |} ∧
  completionSummary
    (step (run (ChannelMessage <$> named_fragments) initial) (ChannelMessage terminal)) =
    VStr "Good job" ∧
  completionReason
    (step (run (ChannelMessage <$> named_fragments) initial) (ChannelMessage terminal)) =
    VStr "finished_all_questions".
Proof.
  assert (inherited "c1" = None) as Hin by (vm_compute; reflexivity).
  assert (toolCallBuffersRef initial !! "c1" = None) as Hnone by (vm_compute; reflexivity).
  assert (concat_text (fragment_text <$> named_fragments) +:+ fragment_text terminal ≠ "")
    as Hraw by (vm_compute; discriminate).
  assert (decode (concat_text (fragment_text <$> named_fragments) +:+ fragment_text terminal) =
          VObj [("summary", VStr "Good job"); ("reason", VStr "finished_all_questions")])
    as Hdec by (vm_compute; reflexivity).
  pose proof (buffer_reconstruction "c1" named_fragments terminal initial Hin Hnone
                named_fragments_are_fragments terminal_is_terminal Hraw) as H.
  cbv zeta in H. rewrite Hdec in H. destruct H as (Hinv & _ & Hrec).
  split; [exact Hinv |].
  destruct (Hrec (VStr "Good job") (VStr "finished_all_questions")
              eq_refl eq_refl eq_refl) as (Hs & Hr & _).
  split; [exact Hs | exact Hr].
Defined.

(** C1, as stated, fails on the first concrete scenario: the second
    fragment has no name and is dropped, the buffer holds the first
    fragment only, which does not parse, and the arguments are the empty
    record, although the concatenation of the two fragments decodes to
    the record of the summary and the reason.  It fails as well for the
    call identifier [constructor]: the first fragment is appended to the
    text of the inherited member, which does not parse either. *)
Lemma buffer_reconstruction_counterexample :
  JSON.parse (concat_text (fragment_text <$> scenario_1)) =
    Some (VObj [("summary", VStr "Good job"); ("reason", VStr "finished_all_questions")]) ∧
  produced_invocation terminal (run (ChannelMessage <$> scenario_1) initial) =
    Some {| name := VStr "complete_interview"; call_id := VStr "c1";
            arguments := VObj [] |} ∧
  completionSummary (run (ChannelMessage <$> (scenario_1 ++ [terminal])%list) initial) =
    VStr "" ∧
  toolCallBuffersRef
    (run [ChannelMessage (for_constructor (fragment "{'sum"))] initial) !! "constructor" =
    Some ("function Object() { [native code] }" +:+ JSON.lit "{'sum") ∧
  completionSummary
    (run (ChannelMessage <$> (for_constructor <$> (named_fragments ++ [terminal]))%list)
       initial) = VStr "".
Proof.
  split; [vm_compute; reflexivity |]. split; [vm_compute; reflexivity |].
  split; [vm_compute; reflexivity |]. split; vm_compute; reflexivity.
Qed.

(** A completion that arrives while the interviewer talks is shown once
    the talk ends. *)
Lemma deferred_visibility_witness :
  isInterviewCompleted (run completion_while_talking live) = true.
Proof.
  apply (deferred_visibility completion_while_talking live).
  - vm_compute. reflexivity.
  - repeat constructor.
  - exists 1%nat, 2%nat.
    eexists. eexists. split; [lia |].
    split; [reflexivity |]. split; [vm_compute; eexists; reflexivity |].
    split; [reflexivity |]. vm_compute. reflexivity.
Defined.

(** While the interviewer talks the completion stays pending. *)
Example pending_while_talking :
  isInterviewCompleted (run (take 2 completion_while_talking) live) = false ∧
  pendingCompletion (run (take 2 completion_while_talking) live) =
    Some {| summary := VStr "Good job"; reason := VStr "" |}.
Proof. split; vm_compute; reflexivity. Qed.

(** C2, as stated, fails in two ways.  When an earlier completion is on
    display, a second record that arrives while the interviewer talks is
    displayed by the callback that finalizes it, although the
    interviewer is talking after every callback and the record is still
    pending.  And a stop leaves the interviewer idle after a record was
    marked pending, yet the record is discarded and never shown. *)
Lemma deferred_visibility_counterexample :
  (isInterviewCompleted Cases.completed = true ∧
   (∀ k sk, moment second_completion Cases.completed k = Some sk →
            interviewerState sk = talking) ∧
   isInterviewCompleted (run second_completion Cases.completed) = true ∧
   completionSummary (run second_completion Cases.completed) = VStr "Second" ∧
   pendingCompletion (run second_completion Cases.completed) =
     Some {| summary := VStr "Second"; reason := VStr "" |}) ∧
  (isInterviewCompleted live = false ∧
   (∃ s1 s2, moment completion_then_stop live 1 = Some s1 ∧
             is_Some (pendingCompletion s1) ∧
             moment completion_then_stop live 2 = Some s2 ∧
             interviewerState s2 = idle) ∧
   isInterviewCompleted (run completion_then_stop live) = false).
Proof.
  split.
  - split; [vm_compute; reflexivity |]. split.
    { intros k sk Hk. destruct k as [|[|k]]; vm_compute in Hk.
      - injection Hk as <-. reflexivity.
      - injection Hk as <-. reflexivity.
      - discriminate Hk. }
    split; [vm_compute; reflexivity |]. split; vm_compute; reflexivity.
  - split; [vm_compute; reflexivity |]. split; [| vm_compute; reflexivity].
    eexists. eexists. split; [vm_compute; reflexivity |].
    split; [vm_compute; eexists; reflexivity |].
    split; [vm_compute; reflexivity |]. vm_compute. reflexivity.
Qed.

(** The acknowledgment of a finalized completion, and none for another
    tool. *)
Lemma acknowledgment_on_finalization_witness :
  sent (step live (ChannelMessage terminal)) =
    (sent live ++
     [JSON.lit "{'type':'tool.output','call_id':'c1','output':'{\'acknowledged\':true}','event_id':'uuid-0'}"])%list ∧
  sent (step live (ChannelMessage other_tool_terminal)) = sent live.
Proof.
  assert (produced_invocation terminal live =
          Some {| name := VStr "complete_interview"; call_id := VStr "c1";
                  arguments := VObj [] |}) as Hinv
    by (vm_compute; reflexivity).
  assert (produced_invocation other_tool_terminal live =
          Some {| name := VStr "lookup"; call_id := VStr "c2";
                  arguments := VObj [] |}) as Hother
    by (vm_compute; reflexivity).
  split.
  - rewrite (proj1 (acknowledgment_on_finalization _ _ _ Hinv) eq_refl eq_refl).
    vm_compute. reflexivity.
  - exact (proj2 (acknowledgment_on_finalization _ _ _ Hother) eq_refl).
Defined.

(** C3, as stated, fails on the payload: the text sent has [output]
    without white space and carries an [event_id], so it is not the text
    of the object the specification writes, nor is its [output]. *)
Lemma acknowledgment_counterexample :
  ∃ text fields,
    sent (step live (ChannelMessage terminal)) = (sent live ++ [text])%list ∧
    text ≠ spec_acknowledgment (VStr "c1") ∧
    JSON.parse text = Some (VObj fields) ∧
    JS.obj_get fields "output" ≠ VStr spec_output ∧
    JS.obj_get fields "event_id" = VStr "uuid-0".
Proof.
  eexists. eexists. split; [vm_compute; reflexivity |].
  split; [vm_compute; discriminate |].
  split; [vm_compute; reflexivity |].
  split; [vm_compute; discriminate | vm_compute; reflexivity].
Qed.

(** Stopping a session with a call in flight and the interviewer
    talking. *)
Lemma teardown_witness :
  pendingCompletion (step in_flight StopClicked) = None ∧
  interviewerState (step in_flight StopClicked) = idle ∧
  frames (step in_flight StopClicked) = ∅ ∧
  toolCallBuffersRef (step in_flight StopClicked) = toolCallBuffersRef in_flight.
Proof.
  assert (peerConnection in_flight = true) as Hpc by (vm_compute; reflexivity).
  pose proof (teardown in_flight Hpc
                (run_sampler_inv _ live live_sampler_inv)) as [H1 H2].
  tauto.
Defined.

(** C4, as stated, fails: after the stop the buffer of the call in
    flight still holds its text and the fallback timeout is still
    pending. *)
Lemma teardown_counterexample :
  peerConnection in_flight = true ∧
  toolCallBuffersRef (step in_flight StopClicked) !! "c1" = Some (JSON.lit "{'sum") ∧
  timeouts (step in_flight StopClicked) !! 3%positive = Some (4000%Z, ToIdle).
Proof.
  split; [vm_compute; reflexivity |].
  split; vm_compute; reflexivity.
Qed.

(** One loud frame, then 0.01 for 250 ms: still talking; 0.01 at 301 ms
    turns the interviewer idle, 0.03 at 400 ms does not. *)
Lemma vad_hysteresis_witness :
  interviewerState (ticks short_silence (tick (5 # 100) 0 live)) = talking ∧
  interviewerState (tick (1 # 100) 301 (ticks short_silence (tick (5 # 100) 0 live))) = idle ∧
  interviewerState (tick (3 # 100) 400 (ticks short_silence (tick (5 # 100) 0 live))) =
    talking.
Proof.
  assert (analyserRef live = true) as Ha by (vm_compute; reflexivity).
  assert (4 # 100 <= 5 # 100)%Q as Hr by (vm_compute; discriminate).
  assert (isSpeakingRef live = false ∨ interviewerState live = talking) as Hpre
    by (left; vm_compute; reflexivity).
  assert (Forall (fun x => (fst x < 4 # 100)%Q ∧
                           ((snd x - 0 <= 300)%Q ∨
                            ¬ ((fst x < 2 # 100)%Q ∧ (300 < double_sub (snd x) 0)%Q)))
            short_silence) as Hall.
  { constructor; [split; [vm_compute; reflexivity | left; vm_compute; discriminate] |].
    constructor; [split; [vm_compute; reflexivity | left; vm_compute; discriminate] |].
    constructor. }
  destruct (vad_hysteresis live (5 # 100) 0 short_silence (1 # 100) 301 Ha Hr Hpre Hall)
    as (H1 & H2 & _).
  destruct (vad_hysteresis live (5 # 100) 0 short_silence (3 # 100) 400 Ha Hr Hpre Hall)
    as (_ & _ & H3).
  split; [exact H1 |]. split.
  - apply H2. split; vm_compute; reflexivity.
  - apply H3. intros [Hlt _]. vm_compute in Hlt. discriminate Hlt.
Defined.

(** C5, as stated, fails: after one loud frame and 0.03 at 100 ms and at
    200 ms, a frame of 0.01 at 301 ms turns the driver idle, although
    the RMS was not below 0.02 only 101 ms earlier.  And a loud frame
    need not make the interviewer talk: when a talk-end event has set
    the state idle while the driver is marked speaking, a loud frame
    leaves it idle. *)
Lemma vad_hysteresis_counterexample :
  interviewerState (ticks murmur (tick (5 # 100) 0 live)) = talking ∧
  interviewerState (tick (1 # 100) 301 (ticks murmur (tick (5 # 100) 0 live))) = idle ∧
  Exists (fun x => (2 # 100 <= fst x)%Q ∧ (301 - snd x < 300)%Q) murmur ∧
  isSpeakingRef Cases.speaking_idle = true ∧
  interviewerState Cases.speaking_idle = idle ∧
  interviewerState (tick (5 # 100) 100 Cases.speaking_idle) = idle.
Proof.
  split; [vm_compute; reflexivity |]. split; [vm_compute; reflexivity |].
  split.
  { apply Exists_cons_tl, Exists_cons_hd. split; vm_compute; congruence. }
  split; [vm_compute; reflexivity |]. split; vm_compute; reflexivity.
Qed.

(** The silence is measured as the code measures it: from the double
    written 0.1 to the double written 300.1 more than 300 ms pass, the
    double difference is 300, and the interviewer stays talking. *)
Example boundary_is_rounded :
  (300 < Cases.d_300_1 - Cases.d_0_1)%Q ∧
  (double_sub Cases.d_300_1 Cases.d_0_1 == 300)%Q ∧
  interviewerState (tick (1 # 100) Cases.d_300_1 (tick (5 # 100) Cases.d_0_1 live)) =
    talking.
Proof.
  split; [vm_compute; reflexivity |]. split; vm_compute; reflexivity.
Qed.

(** A talk-start event arms the timeout, a talk-end event cancels it. *)
Lemma driver_a_fallback_witness :
  interviewerState (step live (ChannelMessage talk_start)) = talking ∧
  fallback_cancelled (step in_flight (ChannelMessage talk_end)).
Proof.
  split.
  - exact (proj1 (proj1 (driver_a_fallback talk_start "response.output_audio.delta" live
                           eq_refl live_fallback_inv) eq_refl)).
  - exact (proj2 (proj2 (driver_a_fallback talk_end "response.done" in_flight
                           eq_refl (run_fallback_inv _ live live_fallback_inv)) eq_refl)).
Defined.

(** C7 fails on the code: the text [null] parses, reading [summary] of
    [null] throws, the enclosing [catch] swallows the exception, and the
    [delete] is never reached; the buffer outlives its terminal event,
    and neither a record nor an acknowledgment is produced. *)
Lemma terminal_null_keeps_buffer :
  JSON.parse "null" = Some VNull ∧
  snd (tool_block terminal (step live (ChannelMessage (fragment "null")))) = Caught ∧
  toolCallBuffersRef
    (run [ChannelMessage (fragment "null"); ChannelMessage terminal] live) !! "c1" =
    Some "null" ∧
  sent (run [ChannelMessage (fragment "null"); ChannelMessage terminal] live) = sent live.
Proof.
  split; [vm_compute; reflexivity |].
  split; [vm_compute; reflexivity |].
  split; vm_compute; reflexivity.
Qed.

(** C8 fails on the code: a terminal event with nothing buffered and
    [arguments: null].  [typeof null] is "object", so the raw text is
    the serialisation [null], which parses to [null]; the arguments are
    [null], not the empty record, reading [summary] of [null] throws,
    and the callback leaves no record and sends no acknowledgment. *)
Lemma terminal_null_arguments :
  toolCallBuffersRef live !! "c1" = None ∧
  rawArgs_of terminal_null live = VStr "null" ∧
  produced_invocation terminal_null live =
    Some {| name := VStr "complete_interview"; call_id := VStr "c1";
            arguments := VNull |} ∧
  snd (tool_block terminal_null live) = Caught ∧
  pendingCompletion (step live (ChannelMessage terminal_null)) = None ∧
  completionSummary (step live (ChannelMessage terminal_null)) = VStr "" ∧
  sent (step live (ChannelMessage terminal_null)) = sent live.
Proof.
  split; [vm_compute; reflexivity |]. split; [vm_compute; reflexivity |].
  split; [vm_compute; reflexivity |]. split; [vm_compute; reflexivity |].
  split; [vm_compute; reflexivity |]. split; vm_compute; reflexivity.
Qed.

(** A terminal event with nothing buffered and no arguments: the empty
    record is pending and acknowledged. *)
Lemma empty_record_degradation_witness :
  snd (tool_block terminal live) = Normal ∧
  pendingCompletion (fst (tool_block terminal live)) =
    Some {| summary := VStr ""; reason := VStr "" |} ∧
  sent (fst (tool_block terminal live)) =
    (sent live ++
     [JSON.lit "{'type':'tool.output','call_id':'c1','output':'{\'acknowledged\':true}','event_id':'uuid-0'}"])%list.
Proof.
  assert (is_tool_event terminal = true) as H1 by (vm_compute; reflexivity).
  assert (identified terminal = true) as H2 by (vm_compute; reflexivity).
  assert (is_terminal terminal = true) as H3 by (vm_compute; reflexivity).
  assert (toolCallBuffersRef live !! buffer_key (callId_of terminal) = None) as H4
    by (vm_compute; reflexivity).
  assert (inherited (buffer_key (callId_of terminal)) = None) as H5
    by (vm_compute; reflexivity).
  assert (JS.truthy (delta_of terminal) = false) as H6 by (vm_compute; reflexivity).
  assert (JS.typeof (JS.obj_get terminal "arguments") ≠ JS.TObject) as H7
    by (vm_compute; discriminate).
  destruct (empty_record_degradation terminal live H1 H2 H3
              (or_introl (conj H4 (conj H5 (conj H6 H7))))) as [_ Hblock].
  rewrite Hblock. split; [reflexivity |].
  split; vm_compute; reflexivity.
Defined.

(** A terminal event that repeats the whole text after the fragments
    doubles the buffer, which then does not parse. *)
Example terminal_text_is_appended :
  produced_invocation
    (terminal_with "{'summary':'Good job','reason':'finished_all_questions'}")
    (run (ChannelMessage <$> named_fragments) initial) =
    Some {| name := VStr "complete_interview"; call_id := VStr "c1";
            arguments := VObj [] |}.
Proof. vm_compute. reflexivity. Qed.

(** A truncated text is recovered as the empty record as well. *)
Example truncated_text_degrades :
  arguments (finalize terminal (step live (ChannelMessage (fragment "{'sum")))) = VObj [].
Proof. vm_compute. reflexivity. Qed.

(** Summary present, reason missing. *)
Lemma completion_record_defaults_witness :
  pendingCompletion (handle_message (terminal_with "{'summary':'Good job'}") live) =
    Some {| summary := VStr "Good job"; reason := VStr "" |}.
Proof.
  assert (produced_invocation (terminal_with "{'summary':'Good job'}") live =
          Some {| name := VStr "complete_interview"; call_id := VStr "c1";
                  arguments := VObj [("summary", VStr "Good job")] |}) as Hinv
    by (vm_compute; reflexivity).
  exact (completion_record_defaults _ _ _ (VStr "Good job") VUndefined
           Hinv eq_refl eq_refl eq_refl).
Defined.

(** C9, as stated, fails on values of the wrong type that are truthy: a
    number and an array are kept as they are. *)
Lemma completion_record_counterexample :
  pendingCompletion
    (handle_message (terminal_with "{'summary':42,'reason':['soon']}") live) =
    Some {| summary := VNum 42; reason := VArr [VStr "soon"] |} ∧
  completionSummary
    (handle_message (terminal_with "{'summary':42,'reason':['soon']}") live) ≠ VStr "".
Proof. split; [vm_compute; reflexivity | vm_compute; discriminate]. Qed.

(** C10 fails on the code: a second finalization whose argument text is
    [null], arriving while the first completion is on display.  Reading
    [summary] of [null] throws before the summary and the reason are
    written: the display keeps the first summary, no record is pending
    and nothing is acknowledged. *)
Lemma null_finalization_keeps_summary :
  isInterviewCompleted Cases.completed = true ∧
  completionSummary Cases.completed = VStr "Good job" ∧
  produced_invocation (terminal_with "null") Cases.completed =
    Some {| name := VStr "complete_interview"; call_id := VStr "c1";
            arguments := VNull |} ∧
  snd (tool_block (terminal_with "null") Cases.completed) = Caught ∧
  completionSummary (step Cases.completed (ChannelMessage (terminal_with "null"))) =
    VStr "Good job" ∧
  pendingCompletion (step Cases.completed (ChannelMessage (terminal_with "null"))) = None ∧
  sent (step Cases.completed (ChannelMessage (terminal_with "null"))) =
    sent Cases.completed.
Proof.
  split; [vm_compute; reflexivity |]. split; [vm_compute; reflexivity |].
  split; [vm_compute; reflexivity |]. split; [vm_compute; reflexivity |].
  split; [vm_compute; reflexivity |]. split; vm_compute; reflexivity.
Qed.

(** A second completion replaces the summary shown by the first. *)
Lemma summary_written_at_finalization_witness :
  isInterviewCompleted (run completion_while_talking live) = true ∧
  completionSummary
    (step (run completion_while_talking live)
       (ChannelMessage (terminal_with "{'summary':'Second'}"))) = VStr "Second".
Proof.
  split; [vm_compute; reflexivity |].
  assert (produced_invocation (terminal_with "{'summary':'Second'}")
            (run completion_while_talking live) =
          Some {| name := VStr "complete_interview"; call_id := VStr "c1";
                  arguments := VObj [("summary", VStr "Second")] |}) as Hinv
    by (vm_compute; reflexivity).
  pose proof (summary_written_at_finalization _ _ _ (VStr "Second") VUndefined
                Hinv eq_refl eq_refl eq_refl) as (_ & (Hs & _) & _).
  exact Hs.
Defined.

End Examples.

(** ** The further properties on concrete inputs *)

Module Checks.

Import Scenario Cases.

#[local] Existing Instance reference_runtime.

Lemma formatTime_shape_witness :
  String.length (formatTime 600) = 5%nat ∧ String.get 2 (formatTime 600) = Some ":"%char.
Proof. apply (formatTime_shape 600). lia. Defined.

Lemma formatTime_read_back_witness : read_clock (formatTime 59) = Some 59%Z.
Proof. apply (formatTime_read_back 59). lia. Defined.

Lemma meanSquare_range_witness :
  ((0 <= meanSquare frame_bytes)%Q ∧ (meanSquare frame_bytes <= 1)%Q) ∧
  ((meanSquare frame_bytes == 0)%Q ↔ Forall (fun d => d = 128%Z) frame_bytes).
Proof.
  apply (meanSquare_range frame_bytes).
  - discriminate.
  - repeat constructor; vm_compute; discriminate.
Defined.

Lemma buffers_isolated_witness :
  toolCallBuffersRef (run other_business in_flight) !! "c1" =
    toolCallBuffersRef in_flight !! "c1".
Proof.
  apply (buffers_isolated "c1" other_business in_flight).
  repeat constructor; intros e He; try discriminate He;
    injection He as <-; vm_compute; discriminate.
Defined.

Lemma unidentified_event_dropped_witness :
  toolCallBuffersRef (handle_message (unnamed_fragment "mary") live) =
    toolCallBuffersRef live ∧
  pendingCompletion (handle_message (unnamed_fragment "mary") live) =
    pendingCompletion live ∧
  completionSummary (handle_message (unnamed_fragment "mary") live) =
    completionSummary live ∧
  completionReason (handle_message (unnamed_fragment "mary") live) =
    completionReason live ∧
  sent (handle_message (unnamed_fragment "mary") live) = sent live.
Proof.
  apply (unidentified_event_dropped (unnamed_fragment "mary") live).
  right. vm_compute. reflexivity.
Defined.

Lemma completion_stays_visible_witness :
  isInterviewCompleted
    (run [ChannelMessage talk_start; ChannelMessage (fragment "{'sum")] completed) = true.
Proof.
  apply (completion_stays_visible _ completed).
  - vm_compute. reflexivity.
  - repeat constructor.
Defined.

Lemma completion_shown_at_once_witness :
  isInterviewCompleted
    (step (step live (ChannelMessage talk_end))
       (ChannelMessage (terminal_with "{'summary':'Good job'}"))) = true.
Proof.
  assert (produced_invocation (terminal_with "{'summary':'Good job'}")
            (step live (ChannelMessage talk_end)) =
          Some {| name := VStr "complete_interview"; call_id := VStr "c1";
                  arguments := VObj [("summary", VStr "Good job")] |}) as Hinv
    by (vm_compute; reflexivity).
  rewrite (completion_shown_at_once _ done_type _ _ (VStr "Good job") VUndefined
             Hinv eq_refl eq_refl eq_refl eq_refl).
  vm_compute. reflexivity.
Defined.

Lemma user_text_promotes_witness :
  isInterviewCompleted (step pending_talking (TextSent "Sorry?")) = true ∧
  pendingCompletion (step pending_talking (TextSent "Sorry?")) = None ∧
  interviewerState (step pending_talking (TextSent "Sorry?")) = idle.
Proof.
  apply (user_text_promotes "Sorry?" pending_talking).
  vm_compute. eexists. reflexivity.
Defined.

Lemma one_fallback_pending_witness :
  timeouts (run to_talking initial) !! 3%positive = Some (4000%Z, ToIdle) ∧
  3%positive = 3%positive.
Proof.
  assert (timeouts (run to_talking initial) !! 3%positive = Some (4000%Z, ToIdle)) as H
    by (vm_compute; reflexivity).
  split; [exact H |].
  exact (one_fallback_pending to_talking 3 3 4000 4000 H H).
Defined.

Lemma no_frames_after_stop_witness :
  run [AnimationFrame 2 (5 # 100) 0; AnimationFrame 2 (1 # 100) 16]
    (step in_flight StopClicked) = step in_flight StopClicked.
Proof.
  assert (peerConnection in_flight = true) as Hpc by (vm_compute; reflexivity).
  exact (no_frames_after_stop in_flight
           [(2%positive, 5 # 100, 0); (2%positive, 1 # 100, 16)]%Q Hpc
           (run_sampler_inv _ live Examples.live_sampler_inv)).
Defined.

Lemma timeouts_survive_stop_witness :
  interviewerState (run [StopClicked; TimeoutFired 1] opened) = talking ∧
  interviewerState (run [StopClicked; TimeoutFired 3] in_flight) = idle.
Proof.
  assert (peerConnection opened = true) as Hpc1 by (vm_compute; reflexivity).
  assert (timeouts opened !! 1%positive = Some (400%Z, Greeting 1)) as Hg
    by (vm_compute; reflexivity).
  assert (peerConnection in_flight = true) as Hpc2 by (vm_compute; reflexivity).
  assert (timeouts in_flight !! 3%positive = Some (4000%Z, ToIdle)) as Hf
    by (vm_compute; reflexivity).
  split.
  - exact (proj1 (proj2 (timeouts_survive_stop opened 1 400 (Greeting 1) Hpc1 Hg))).
  - exact (proj1 (proj2 (timeouts_survive_stop in_flight 3 4000 ToIdle Hpc2 Hf))).
Defined.

Lemma vad_dead_band_witness :
  isSpeakingRef (tick (3 # 100) 100 speaking) = isSpeakingRef speaking ∧
  lastAboveThresholdMsRef (tick (3 # 100) 100 speaking) =
    lastAboveThresholdMsRef speaking ∧
  interviewerState (tick (3 # 100) 100 speaking) = interviewerState speaking.
Proof.
  apply (vad_dead_band (3 # 100) 100 speaking).
  - vm_compute. reflexivity.
  - vm_compute. discriminate.
  - vm_compute. reflexivity.
Defined.

Lemma talk_end_outlasts_loud_frames_witness :
  interviewerState
    (ticks [(5 # 100, 16); (9 # 100, 32)]%Q (step speaking (ChannelMessage talk_end))) =
    idle.
Proof.
  apply (talk_end_outlasts_loud_frames talk_end "response.done" speaking).
  - vm_compute. reflexivity.
  - vm_compute. reflexivity.
  - vm_compute. reflexivity.
  - vm_compute. reflexivity.
  - repeat constructor; vm_compute; discriminate.
Defined.

Lemma greeting_after_open_witness :
  interviewerState (step started ChannelOpen) = entry ∧
  interviewerState (run [ChannelOpen; TimeoutFired 1] started) = talking ∧
  sent (run [ChannelOpen; TimeoutFired 1] started) = [JSON.stringify greeting_event] ∧
  sent (run [ChannelOpen; StopClicked; SessionStarted; TimeoutFired 1] started) = [].
Proof.
  assert (dataChannel started = true) as Hdc by (vm_compute; reflexivity).
  assert (peerConnection started = true) as Hpc by (vm_compute; reflexivity).
  pose proof (greeting_after_open started Hdc) as (H1 & _ & H3 & H4 & H5).
  split; [exact H1 |]. split; [exact H3 |]. split; [exact H4 | exact (H5 Hpc)].
Defined.

(** The greeting text has the 260 bytes of the source literal. *)
Example greeting_instructions_length : String.length greeting_instructions = 260%nat.
Proof. vm_compute. reflexivity. Qed.

Lemma other_tool_cleaned_up_witness :
  toolCallBuffersRef (handle_message other_tool_terminal in_flight) !! "c2" = None ∧
  pendingCompletion (handle_message other_tool_terminal in_flight) =
    pendingCompletion in_flight.
Proof.
  assert (produced_invocation other_tool_terminal in_flight =
          Some {| name := VStr "lookup"; call_id := VStr "c2";
                  arguments := VObj [] |}) as Hinv
    by (vm_compute; reflexivity).
  pose proof (other_tool_cleaned_up _ _ _ Hinv eq_refl) as (H1 & H2 & _).
  split; [exact H1 | exact H2].
Defined.

Lemma completed_call_leaves_store_witness :
  toolCallBuffersRef
    (run (ChannelMessage <$> (named_fragments ++ [terminal])%list) initial) =
    toolCallBuffersRef initial.
Proof.
  apply (completed_call_leaves_store "c1" named_fragments terminal initial).
  - vm_compute. reflexivity.
  - apply Examples.named_fragments_are_fragments.
  - apply Examples.terminal_is_terminal.
  - vm_compute. reflexivity.
Defined.

End Checks.
